(** * Production-data backends of the penguins model

    A shallow embedding of [pipelines/inference/backend.py]: the [Local]
    backend (a SQLite table [data]) and the [Sagemaker] backend (capture
    and ground-truth objects in S3, reconciled by a positional join), with
    the properties their specification states about them.

    Conventions of the embedding:
    - a pandas [DataFrame] is the list of its rows, a nullable cell is an
      [option] ([None] is [None]/[NaN]/[NaT]/SQL [NULL]);
    - a call either returns or raises: [outcome];
    - the store an operation works on is passed in and handed back;
    - what the code takes from its environment (the clock, [uuid.uuid4],
      [random], a failing SQLite call, the serving process) is an explicit
      argument of the operation. *)

From Stdlib Require Import Ascii String ZArith QArith Lia Bool Arith List.
From Stdlib Require Import Permutation Sorted OrderedTypeEx.
Import ListNotations.

Close Scope Q_scope.
Local Open Scope nat_scope.
Local Open Scope string_scope.
Local Open Scope list_scope.

(** ** Calls that may raise *)

Inductive exn : Type :=
| ValueError        (* pandas: length mismatch, nothing to concatenate *)
| KeyError          (* a missing dict key or column *)
| DatabaseError     (* pandas.read_sql_query on a failing statement *)
| ClientError.      (* the deployment client or the transport *)

Inductive outcome (A : Type) : Type :=
| Returned (a : A)
| Raised (e : exn).

Arguments Returned {A} a.
Arguments Raised {A} e.

Definition bind {A B : Type} (c : outcome A) (k : A -> outcome B) : outcome B :=
  match c with
  | Returned a => k a
  | Raised e => Raised e
  end.

Notation "x <- c ;; k" := (bind c (fun x => k))
  (at level 61, c at next level, right associativity).

(** A list comprehension whose body may raise: the first failure wins. *)
Fixpoint traverse {A B : Type} (f : A -> outcome B) (l : list A) : outcome (list B) :=
  match l with
  | [] => Returned []
  | a :: l' => b <- f a ;; bs <- traverse f l' ;; Returned (b :: bs)
  end.

Definition raises {A : Type} (c : outcome A) : Prop :=
  exists e, c = Raised e.

(** ** Cells and the model's input row *)

Inductive value : Type :=
| Null
| Text (s : string)
| Real (q : Q).

(** The six feature columns the model receives ([Local.load] names them). *)
Record penguin : Type := {
  island : value;
  sex : value;
  culmen_length_mm : value;
  culmen_depth_mm : value;
  flipper_length_mm : value;
  body_mass_g : value
}.

Definition null_penguin : penguin :=
  {| island := Null; sex := Null; culmen_length_mm := Null;
     culmen_depth_mm := Null; flipper_length_mm := Null; body_mass_g := Null |}.

Definition is_none {A : Type} (o : option A) : bool :=
  match o with None => true | Some _ => false end.

Definition notna {A : Type} (o : option A) : bool := negb (is_none o).

(** [r < q] on rationals, as a boolean. *)
Definition Qltb (r q : Q) : bool := negb (Qle_bool q r).

(** ** The serving process

    What a request to the model comes back with: an answer, or a failure
    of the transport (refused, reset, not valid JSON), or no answer within
    the time the caller allows. *)

Inductive reply (A : Type) : Type :=
| Answer (a : A)
| ConnectionFailed
| TimedOut.

Arguments Answer {A} a.
Arguments ConnectionFailed {A}.
Arguments TimedOut {A}.

(** ** class Backend *)

Module Backend.

Inductive species : Type := Adelie | Chinstrap | Gentoo.

Definition species_name (s : species) : string :=
  match s with
  | Adelie => "Adelie"
  | Chinstrap => "Chinstrap"
  | Gentoo => "Gentoo"
  end.

(** The module [random] as the code uses it: the [i]-th sample gets the
    draw [random_random i] of [random.random()], a float of [[0, 1)], and,
    when it is needed, the element [random_choice i] that
    [random.choice(["Adelie", "Chinstrap", "Gentoo"])] picks. *)
Record random : Type := {
  random_random : nat -> Q;
  random_choice : nat -> species
}.

Definition unit_interval (rnd : random) : Prop :=
  forall i, (0 <= random_random rnd i)%Q /\ (random_random rnd i < 1)%Q.

Definition get_fake_label (rnd : random) (i : nat)
    (prediction : option string) (ground_truth_quality : Q) : option string :=
  if Qltb (random_random rnd i) ground_truth_quality
  then prediction
  else Some (species_name (random_choice rnd i)).

End Backend.

(** ** class Local *)

Module Local.

Import Backend.

(** A row of the table [data]. *)
Record row : Type := {
  features : penguin;
  date : option Z;
  prediction : option string;
  confidence : option Q;
  ground_truth : option string;
  uuid : string
}.

(** The file [self.database]: absent, present without the table [data]
    (what [sqlite3.connect] leaves behind), or holding the table. *)
Inductive database : Type :=
| NoFile
| NoTable
| Table (rows : list row).

Definition rows_of (db : database) : list row :=
  match db with
  | Table rows => rows
  | _ => []
  end.

(** [Path(self.database).exists()] *)
Definition exists_ (db : database) : bool :=
  match db with NoFile => false | _ => true end.

(** [sqlite3.connect] creates the file when it is missing. *)
Definition connect (db : database) : database :=
  match db with NoFile => NoTable | _ => db end.

(** *** load *)

(** What the SELECT of [load] keeps of a row. *)
Record loaded : Type := {
  l_features : penguin;
  l_prediction : option string;
  l_ground_truth : option string
}.

Definition select (r : row) : loaded :=
  {| l_features := features r;
     l_prediction := prediction r;
     l_ground_truth := ground_truth r |}.

(** SQLite's order on the column [date]: NULL sorts below every value. *)
Definition date_leb (a b : option Z) : bool :=
  match a, b with
  | None, _ => true
  | Some _, None => false
  | Some x, Some y => (x <=? y)%Z
  end.

(** ORDER BY date DESC. SQL leaves the order of rows of equal date open;
    here, as SQLite does for this query, they keep their insertion order. *)
Fixpoint insert_desc (r : row) (l : list row) : list row :=
  match l with
  | [] => [r]
  | x :: l' =>
      if date_leb (date x) (date r) then r :: x :: l'
      else x :: insert_desc r l'
  end.

Definition order_by_date_desc (rows : list row) : list row :=
  fold_right insert_desc [] rows.

(** LIMIT ?: a negative bound is no bound. *)
Definition sql_limit {A : Type} (limit : Z) (l : list A) : list A :=
  if (limit <? 0)%Z then l else firstn (Z.to_nat limit) l.

Definition load (db : database) (limit : Z) : outcome (option (list loaded)) :=
  if negb (exists_ db) then Returned None
  else
    match db with
    | Table rows =>
        Returned (Some (sql_limit limit (map select (order_by_date_desc rows))))
    | _ => Raised DatabaseError      (* no such table: data *)
    end.

(** *** save *)

(** An item of [model_output]: a dict, read at the keys ["prediction"]
    and ["confidence"]; [None] is a key the dict does not have. *)
Record output_item : Type := {
  item_prediction : option string;
  item_confidence : option Q
}.

Definition getitem {A : Type} (get : output_item -> option A)
    (item : output_item) : outcome A :=
  match get item with
  | Some v => Returned v
  | None => Raised KeyError
  end.

(** Where SQLite fails during [save]. *)
Inductive save_fault : Type :=
| SaveNoFault
| SaveConnectFails
| SaveWriteFails.

(** [model_input.copy()] followed by the four scalar assignments. *)
Definition new_row (now : Z) (p : penguin) : row :=
  {| features := p; date := Some now; prediction := None;
     confidence := None; ground_truth := None; uuid := "" |}.

(** The row pandas makes up when a column is set on a frame without rows:
    every existing column is NaN. *)
Definition blank_row : row :=
  {| features := null_penguin; date := None; prediction := None;
     confidence := None; ground_truth := None; uuid := "" |}.

Definition set_prediction (v : string) (r : row) : row :=
  {| features := features r; date := date r; prediction := Some v;
     confidence := confidence r; ground_truth := ground_truth r;
     uuid := uuid r |}.

Definition set_confidence (v : Q) (r : row) : row :=
  {| features := features r; date := date r; prediction := prediction r;
     confidence := Some v; ground_truth := ground_truth r;
     uuid := uuid r |}.

Definition set_uuid (v : string) (r : row) : row :=
  {| features := features r; date := date r; prediction := prediction r;
     confidence := confidence r; ground_truth := ground_truth r;
     uuid := v |}.

Definition set_ground_truth (v : option string) (r : row) : row :=
  {| features := features r; date := date r; prediction := prediction r;
     confidence := confidence r; ground_truth := v;
     uuid := uuid r |}.

Fixpoint zip_with {A B C : Type} (f : A -> B -> C) (l : list A) (m : list B) : list C :=
  match l, m with
  | a :: l', b :: m' => f a b :: zip_with f l' m'
  | _, _ => []
  end.

(** [data[column] = values] for a list: a frame without rows takes its
    index from the list, any other frame needs a list of its length. *)
Definition set_column {A : Type} (set : A -> row -> row)
    (values : list A) (data : list row) : outcome (list row) :=
  match data, values with
  | [], _ :: _ => Returned (map (fun v => set v blank_row) values)
  | _, _ =>
      if Nat.eqb (length values) (length data)
      then Returned (zip_with set values data)
      else Raised ValueError
  end.

(** The [if model_output is not None and len(model_output) > 0] block. *)
Definition fill_outputs (data : list row)
    (model_output : option (list output_item)) : outcome (list row) :=
  match model_output with
  | None | Some [] => Returned data
  | Some items =>
      predictions <- traverse (getitem item_prediction) items ;;
      data <- set_column set_prediction predictions data ;;
      confidences <- traverse (getitem item_confidence) items ;;
      set_column set_confidence confidences data
  end.

(** [data["uuid"] = [str(uuid.uuid4()) for _ in range(len(data))]] *)
Definition stamp_uuids (uuid4 : nat -> string) (data : list row) : list row :=
  zip_with set_uuid (map uuid4 (seq 0 (length data))) data.

(** [data.to_sql("data", connection, if_exists="append", index=False)] *)
Definition to_sql_append (data : list row) (db : database) : database :=
  Table (rows_of db ++ data).

Definition save (db : database) (now : Z) (uuid4 : nat -> string)
    (model_input : list penguin) (model_output : option (list output_item))
    (fault : save_fault) : outcome unit * database :=
  match fault with
  | SaveConnectFails => (Returned tt, db)
  | _ =>
      let db1 := connect db in
      match fill_outputs (map (new_row now) model_input) model_output with
      | Raised e => (Raised e, db1)
      | Returned data =>
          let data := stamp_uuids uuid4 data in
          match fault with
          | SaveWriteFails => (Returned tt, db1)
          | _ => (Returned tt, to_sql_append data db1)
          end
      end
  end.

(** *** label *)

(** A connection: the committed table and the open transaction, if any. *)
Record connection : Type := {
  committed : list row;
  pending : option (list row)
}.

Definition open_ (rows : list row) : connection :=
  {| committed := rows; pending := None |}.

Definition view (c : connection) : list row :=
  match pending c with
  | Some rows => rows
  | None => committed c
  end.

(** UPDATE data SET ground_truth = ? WHERE uuid = ? *)
Definition update_ground_truth (label : option string) (id : string)
    (rows : list row) : list row :=
  map (fun r => if String.eqb (uuid r) id then set_ground_truth label r else r) rows.

(** [connection.execute] of the UPDATE: it opens a transaction. *)
Definition execute (label : option string) (id : string) (c : connection) : connection :=
  {| committed := committed c;
     pending := Some (update_ground_truth label id (view c)) |}.

Definition commit (c : connection) : connection :=
  {| committed := view c; pending := None |}.

(** [connection.close()]: what was not committed is lost. *)
Definition close (c : connection) : database := Table (committed c).

(** Where the labelling fails: at the connection, at the SELECT, at the
    UPDATE of the [k]-th unlabeled row, or at the commit. *)
Inductive label_fault : Type :=
| LabelNoFault
| LabelConnectFails
| LabelSelectFails
| LabelUpdateFails (k : nat)
| LabelCommitFails.

Definition update_fails (fault : label_fault) (i : nat) : bool :=
  match fault with
  | LabelUpdateFails k => Nat.eqb k i
  | _ => false
  end.

Definition unlabeled (r : row) : bool := is_none (ground_truth r).

(** The [for _, row in df.iterrows()] loop: whether it ran to its end, and
    the connection as the loop leaves it (an UPDATE that fails raises, and
    the UPDATEs before it stay pending). *)
Fixpoint label_rows (rnd : random) (ground_truth_quality : Q)
    (fault : label_fault) (i : nat) (df : list row) (c : connection)
    : bool * connection :=
  match df with
  | [] => (true, c)
  | r :: df' =>
      let label := get_fake_label rnd i (prediction r) ground_truth_quality in
      if update_fails fault i then (false, c)
      else label_rows rnd ground_truth_quality fault (S i) df'
             (execute label (uuid r) c)
  end.

Definition label (db : database) (ground_truth_quality : Q) (rnd : random)
    (fault : label_fault) : outcome nat * database :=
  if negb (exists_ db) then (Returned 0, db)
  else
    match fault, db with
    | LabelConnectFails, _ | LabelSelectFails, _ => (Returned 0, db)
    | _, Table rows =>
        let c := open_ rows in
        let df := filter unlabeled (view c) in
        match df with
        | [] => (Returned 0, close c)
        | _ =>
            match label_rows rnd ground_truth_quality fault 0 df c with
            | (false, c') => (Returned 0, close c')
            | (true, c') =>
                match fault with
                | LabelCommitFails => (Returned 0, close c')
                | _ => (Returned (length df), close (commit c'))
                end
            end
        end
    | _, _ => (Returned 0, db)       (* no such table: data *)
    end.

(** *** invoke *)

(** [requests.post(..., timeout=5)] and [.json()] inside [try]; every
    [Exception] is logged and turned into [None]. *)
Definition invoke {A : Type} (server : reply A) : outcome (option A) :=
  match server with
  | Answer a => Returned (Some a)
  | ConnectionFailed | TimedOut => Returned None
  end.

End Local.

(** ** class Sagemaker *)

Module Sagemaker.

Import Backend.

(** *** What the bucket holds *)

(** An item of [output_data["predictions"]]. *)
Record prediction_item : Type := {
  out_prediction : string;
  out_confidence : Q
}.

(** The request body: the rows under ["instances"], under ["inputs"] or
    under ["dataframe_split"]; [None] is a key the body does not have. *)
Record input_data : Type := {
  instances : option (list penguin);
  inputs : option (list penguin);
  dataframe_split : option (list penguin)
}.

(** A line of a capture object. *)
Record capture : Type := {
  inferenceTime : string;
  eventId : string;
  endpointInput : input_data;
  endpointOutput : list prediction_item
}.

(** A line of a ground-truth object. *)
Record ground_truth_line : Type := {
  groundTruthData : list (option string);
  gt_eventId : string
}.

(** The objects under a prefix, in the order of the listing (by key),
    each with the lines it parses to. *)
Definition prefix (A : Type) : Type := list (string * list A).

Record bucket : Type := {
  data_capture_uri : prefix capture;
  ground_truth_uri : prefix ground_truth_line
}.

(** [s3.put_object]: a new key takes its place in the listing, an
    existing key is overwritten. *)
Fixpoint put_object {A : Type} (key : string) (body : list A)
    (objects : prefix A) : prefix A :=
  match objects with
  | [] => [(key, body)]
  | (k, b) :: rest =>
      match String.compare key k with
      | Eq => (key, body) :: rest
      | Lt => (key, body) :: objects
      | Gt => (k, b) :: put_object key body rest
      end
  end.

(** *** Reading the objects *)

(** [_load_files]: [None] without objects, else every line of every
    object. *)
Definition _load_files {A : Type} (objects : prefix A) : option (list A) :=
  match objects with
  | [] => None
  | _ => Some (concat (map snd objects))
  end.

(** [pd.concat(frames, ignore_index=True)] *)
Definition pd_concat {A : Type} (frames : list (list A)) : outcome (list A) :=
  match frames with
  | [] => Raised ValueError
  | _ => Returned (concat frames)
  end.

(** A row of the captured table. *)
Record sample : Type := {
  features : option penguin;
  prediction : option string;
  confidence : option Q;
  date : string;
  event_id : string;
  species : option string
}.

(** [pd.concat([df, outputs], axis=1)]: row [i] of the inputs beside row
    [i] of the outputs; the shorter side is filled with NaN. *)
Fixpoint concat_columns (xs : list penguin) (ys : list prediction_item)
    : list (option penguin * option prediction_item) :=
  match xs with
  | [] => map (fun y => (None, Some y)) ys
  | x :: xs' =>
      match ys with
      | [] => map (fun x => (Some x, None)) xs
      | y :: ys' => (Some x, Some y) :: concat_columns xs' ys'
      end
  end.

Definition input_rows (d : input_data) : outcome (list penguin) :=
  match instances d, inputs d, dataframe_split d with
  | Some rows, _, _ => Returned rows
  | None, Some rows, _ => Returned rows
  | None, None, Some rows => Returned rows
  | None, None, None => Raised KeyError
  end.

Definition process_row (c : capture) : outcome (list sample) :=
  rows <- input_rows (endpointInput c) ;;
  Returned
    (map (fun xy =>
            {| features := fst xy;
               prediction := option_map out_prediction (snd xy);
               confidence := option_map out_confidence (snd xy);
               date := inferenceTime c;
               event_id := eventId c;
               species := None |})
         (concat_columns rows (endpointOutput c))).

(** [sort_values(by="date", ascending=False)]. pandas leaves the order of
    rows of equal date to its sort; here they keep their order. *)
Fixpoint insert_desc (r : sample) (l : list sample) : list sample :=
  match l with
  | [] => [r]
  | x :: l' =>
      if String.leb (date x) (date r) then r :: x :: l'
      else x :: insert_desc r l'
  end.

Definition sort_by_date_desc (rows : list sample) : list sample :=
  fold_right insert_desc [] rows.

Definition _load_collected_data_files (b : bucket) : outcome (list sample) :=
  match _load_files (data_capture_uri b) with
  | None => Returned []
  | Some df =>
      processed <- traverse process_row df ;;
      result <- pd_concat processed ;;
      Returned (sort_by_date_desc result)
  end.

(** A row of the ground-truth table before [explode]: the event and the
    list of its labels in one cell. *)
Definition process (line : ground_truth_line) : string * list (option string) :=
  (gt_eventId line, groundTruthData line).

Definition _load_ground_truth_files (b : bucket)
    : outcome (list (string * list (option string))) :=
  match _load_files (ground_truth_uri b) with
  | None => Returned []
  | Some df => pd_concat (map (fun line => [process line]) df)
  end.

(** *** The reconciliation join *)

(** [explode("species")]: a row per label; a row with an empty list is
    kept, with NaN. *)
Definition explode (ground_truth : list (string * list (option string)))
    : list (string * option string) :=
  flat_map (fun row =>
              match snd row with
              | [] => [(fst row, None)]
              | labels => map (fun l => (fst row, l)) labels
              end)
           ground_truth.

(** [groupby("event_id").cumcount()]: for each row, how many rows above it
    have its event. *)
Fixpoint cumcount_from (above : list string) (events : list string) : list nat :=
  match events with
  | [] => []
  | e :: events' =>
      count_occ string_dec above e :: cumcount_from (e :: above) events'
  end.

Definition cumcount (events : list string) : list nat := cumcount_from [] events.

(** The two tables with their column [index]. *)
Definition index_data (data : list sample) : list (nat * sample) :=
  combine (cumcount (map event_id data)) data.

Definition index_ground_truth (ground_truth : list (string * option string))
    : list (nat * (string * option string)) :=
  combine (cumcount (map fst ground_truth)) ground_truth.

Definition same_key (i : nat) (s : sample) (g : nat * (string * option string)) : bool :=
  String.eqb (fst (snd g)) (event_id s) && Nat.eqb (fst g) i.

Definition with_species (label : option string) (s : sample) : sample :=
  {| features := features s; prediction := prediction s;
     confidence := confidence s; date := date s;
     event_id := event_id s; species := label |}.

(** [data.merge(ground_truth, on=["event_id", "index"], how="left")], then
    [species_y] renamed to [species], [species_x] and [index] dropped: the
    rows of the left table in their order, each once per matching row of
    the right table, or once with NaN when there is none. *)
Definition merge_left (left : list (nat * sample))
    (right : list (nat * (string * option string))) : list sample :=
  flat_map (fun l =>
              match filter (same_key (fst l) (snd l)) right with
              | [] => [with_species None (snd l)]
              | matches => map (fun g => with_species (snd (snd g)) (snd l)) matches
              end)
           left.

(** The body of [_load_collected_data] once both tables are read. *)
Definition reconcile (data : list sample)
    (ground_truth : list (string * list (option string))) : list sample :=
  match data with
  | [] => []
  | _ =>
      match ground_truth with
      | [] => data
      | _ => merge_left (index_data data) (index_ground_truth (explode ground_truth))
      end
  end.

Definition _load_collected_data (b : bucket) : outcome (list sample) :=
  data <- _load_collected_data_files b ;;
  ground_truth <- _load_ground_truth_files b ;;
  Returned (reconcile data ground_truth).

Definition _load_unlabeled_data (b : bucket) : outcome (list sample) :=
  data <- _load_collected_data b ;;
  Returned (filter (fun s => is_none (species s)) data).

(** *** load *)

(** The columns [load] returns: [species] as [ground_truth]; [date],
    [event_id] and [confidence] are dropped. *)
Record labeled : Type := {
  x_features : option penguin;
  x_prediction : option string;
  ground_truth : option string
}.

Definition public (s : sample) : labeled :=
  {| x_features := features s;
     x_prediction := prediction s;
     ground_truth := species s |}.

(** The captured table has the columns [prediction] and [confidence] when
    some captured response has a prediction. *)
Definition has_output_columns (b : bucket) : bool :=
  existsb (fun c => match endpointOutput c with [] => false | _ => true end)
          (concat (map snd (data_capture_uri b))).

(** [DataFrame.head(n)], that is [iloc[:n]]. *)
Definition head {A : Type} (n : Z) (l : list A) : list A :=
  if (n <? 0)%Z then firstn (length l - Z.to_nat (- n)) l
  else firstn (Z.to_nat n) l.

Definition load (b : bucket) (limit : Z) : outcome (list labeled) :=
  data <- _load_collected_data b ;;
  match data with
  | [] => Returned []
  | _ =>
      let data := filter (fun s => notna (species s)) data in
      if has_output_columns b
      then Returned (head limit (map public data))
      else Raised KeyError
  end.

(** *** label *)

(** The keys of [groupby("event_id")]: each event once, in ascending
    order. *)
Fixpoint insert_key (e : string) (keys : list string) : list string :=
  match keys with
  | [] => [e]
  | k :: keys' =>
      match String.compare e k with
      | Eq => keys
      | Lt => e :: keys
      | Gt => k :: insert_key e keys'
      end
  end.

Definition groupby (data : list sample) : list (string * list sample) :=
  map (fun e => (e, filter (fun s => String.eqb (event_id s) e) data))
      (fold_right insert_key [] (map event_id data)).

Fixpoint fake_labels (rnd : random) (ground_truth_quality : Q) (i : nat)
    (rows : list sample) : list (option string) :=
  match rows with
  | [] => []
  | r :: rows' =>
      get_fake_label rnd i (prediction r) ground_truth_quality
        :: fake_labels rnd ground_truth_quality (S i) rows'
  end.

Fixpoint label_groups (rnd : random) (ground_truth_quality : Q) (i : nat)
    (groups : list (string * list sample)) : list ground_truth_line :=
  match groups with
  | [] => []
  | (event, rows) :: groups' =>
      {| groundTruthData := fake_labels rnd ground_truth_quality i rows;
         gt_eventId := event |}
        :: label_groups rnd ground_truth_quality (i + length rows) groups'
  end.

(** [upload_key] is the key the upload time formats to. *)
Definition label (b : bucket) (ground_truth_quality : Q) (rnd : random)
    (upload_key : string) : outcome nat * bucket :=
  match _load_unlabeled_data b with
  | Raised e => (Raised e, b)
  | Returned [] => (Returned 0, b)
  | Returned data =>
      if has_output_columns b
      then
        let records := label_groups rnd ground_truth_quality 0 (groupby data) in
        (Returned (length data),
         {| data_capture_uri := data_capture_uri b;
            ground_truth_uri := put_object upload_key records (ground_truth_uri b) |})
      else (Raised KeyError, b)
  end.

(** *** invoke *)

(** The answer of the endpoint: a dict that may have the key
    ["predictions"], a list of dicts that may have the keys ["prediction"]
    and ["confidence"]. *)
Record response : Type := {
  predictions : option (list (option string * option Q))
}.

(** [pd.DataFrame(items)[["prediction", "confidence"]]]: both columns
    must exist, that is, some item has each key. *)
Definition select_columns (items : list (option string * option Q))
    : outcome (list (option string * option Q)) :=
  if existsb (fun it => notna (fst it)) items && existsb (fun it => notna (snd it)) items
  then Returned items
  else Raised KeyError.

(** [self.deployment_client.predict(self.target, payload)] outside any
    [try], and without a timeout of its own. *)
Definition invoke (server : reply response)
    : outcome (list (option string * option Q)) :=
  match server with
  | Answer r =>
      match predictions r with
      | Some items => select_columns items
      | None => Raised KeyError
      end
  | ConnectionFailed | TimedOut => Raised ClientError
  end.

End Sagemaker.

(** ** class BackendMixin *)

Module BackendMixin.

(** A value of the backend configuration: what matters to the code is
    whether it is a string; a list or a dict is kept as its JSON text. *)
Inductive json : Type :=
| JNull
| JBool (b : bool)
| JNum (q : Q)
| JStr (s : string)
| JNested (text : string).

(** [\w] on ASCII text: a letter, a digit or the underscore. (The text of
    a configuration is taken to be ASCII; on other text Python's [\w] also
    takes the letters and digits of other scripts.) *)
Definition is_word (c : ascii) : bool :=
  let n := nat_of_ascii c in
  (Nat.leb 48 n && Nat.leb n 57) || (Nat.leb 65 n && Nat.leb n 90) ||
  (Nat.leb 97 n && Nat.leb n 122) || Nat.eqb n 95.

(** [replacer]: the value of the variable, or the placeholder as it was
    written when the variable is not set. *)
Definition replacer (environ : string -> option string) (env_var : string) : string :=
  match environ env_var with
  | Some v => v
  | None => ("${" ++ env_var ++ "}")%string
  end.

(** Where a scan for [\$\{(\w+)\}] stands: outside a placeholder, after a
    dollar, or inside the braces with the name read so far. *)
Inductive scan : Type :=
| Outside
| AfterDollar
| InName (name : string).

(** [pattern.sub(replacer, value)]: the placeholders are replaced from left
    to right; text that only starts like a placeholder is kept as it is,
    and what [replacer] returns is not scanned again. *)
Fixpoint sub (environ : string -> option string) (st : scan) (value : string) : string :=
  match value with
  | EmptyString =>
      match st with
      | Outside => ""
      | AfterDollar => "$"
      | InName name => ("${" ++ name)%string
      end
  | String c rest =>
      match st with
      | Outside =>
          if Ascii.eqb c "$" then sub environ AfterDollar rest
          else String c (sub environ Outside rest)
      | AfterDollar =>
          if Ascii.eqb c "{" then sub environ (InName "") rest
          else if Ascii.eqb c "$" then String "$" (sub environ AfterDollar rest)
          else String "$" (String c (sub environ Outside rest))
      | InName name =>
          if is_word c then sub environ (InName (name ++ String c "")%string) rest
          else if Ascii.eqb c "}" then
            match name with
            | EmptyString => ("${}" ++ sub environ Outside rest)%string
            | _ => (replacer environ name ++ sub environ Outside rest)%string
            end
          else if Ascii.eqb c "$"
          then ("${" ++ name ++ sub environ AfterDollar rest)%string
          else ("${" ++ name ++ String c (sub environ Outside rest))%string
      end
  end.

(** [_get_config]: [None] for an empty configuration; else the
    configuration with the placeholders of its string values expanded
    (the values at the top level only). *)
Definition _get_config (backend_config : list (string * json))
    (environ : string -> option string) : option (list (string * json)) :=
  match backend_config with
  | [] => None
  | _ =>
      Some (map (fun kv =>
                   match snd kv with
                   | JStr value => (fst kv, JStr (sub environ Outside value))
                   | _ => kv
                   end)
                backend_config)
  end.

End BackendMixin.

(** ** S3 locations *)

Module S3Uri.

(** [s.split("/")] *)
Fixpoint split (s : string) : list string :=
  match s with
  | EmptyString => [""]
  | String c rest =>
      if Ascii.eqb c "/" then "" :: split rest
      else
        match split rest with
        | part :: parts => String c part :: parts
        | [] => [String c ""]
        end
  end.

(** ["/".join(parts)] *)
Definition join (parts : list string) : string := String.concat "/" parts.

(** [s.rstrip("/")] *)
Fixpoint rstrip (s : string) : string :=
  match s with
  | EmptyString => ""
  | String c rest =>
      match rstrip rest with
      | EmptyString => if Ascii.eqb c "/" then "" else String c ""
      | kept => String c kept
      end
  end.

(** [Sagemaker.__init__]: [self.ground_truth_uri.rstrip("/") + "/"]; without
    a configured location [None.rstrip] raises AttributeError, here
    [None]. *)
Definition init_ground_truth_uri (configured : option string) : option string :=
  match configured with
  | Some uri => Some (rstrip uri ++ "/")%string
  | None => None
  end.

(** [bucket = s3_uri.split("/")[2]] and
    [prefix = "/".join(s3_uri.split("/")[3:])], as [_load_files] and
    [label] compute them; [None] is the IndexError of the subscript. *)
Definition bucket_and_prefix (s3_uri : string) : option (string * string) :=
  match nth_error (split s3_uri) 2 with
  | Some bucket => Some (bucket, join (skipn 3 (split s3_uri)))
  | None => None
  end.

(** The key [label] uploads under; [stamp] is the upload time formatted as
    [%Y/%m/%d/%H/%M%S]. *)
Definition upload_key (ground_truth_uri : string) (stamp : string) : string :=
  (join (skipn 3 (split ground_truth_uri)) ++ stamp ++ ".jsonl")%string.

End S3Uri.

(** * Properties *)

Lemma Qltb_lt (r q : Q) : Qltb r q = true <-> (r < q)%Q.
Proof.
  unfold Qltb. rewrite negb_true_iff. split.
  - intros H. apply Qnot_le_lt. intros Hle.
    apply Qle_bool_iff in Hle. congruence.
  - intros H. destruct (Qle_bool q r) eqn:E; [| reflexivity].
    apply Qle_bool_iff in E. exfalso. exact (Qlt_not_le _ _ H E).
Qed.

(** ** Sample data *)

Definition torgersen : penguin :=
  {| island := Text "Torgersen"; sex := Text "MALE";
     culmen_length_mm := Real (386 # 10)%Q; culmen_depth_mm := Real (212 # 10)%Q;
     flipper_length_mm := Real (191 # 1)%Q; body_mass_g := Real (3800 # 1)%Q |}.

Definition biscoe : penguin :=
  {| island := Text "Biscoe"; sex := Text "FEMALE";
     culmen_length_mm := Real (465 # 10)%Q; culmen_depth_mm := Real (148 # 10)%Q;
     flipper_length_mm := Real (217 # 1)%Q; body_mass_g := Real (5200 # 1)%Q |}.

Definition dream : penguin :=
  {| island := Text "Dream"; sex := Null;
     culmen_length_mm := Real (371 # 10)%Q; culmen_depth_mm := Real (185 # 10)%Q;
     flipper_length_mm := Null; body_mass_g := Real (3500 # 1)%Q |}.

(** Draws of 0.5, and Chinstrap whenever a class is picked. *)
Definition coin : Backend.random :=
  {| Backend.random_random := fun _ => (1 # 2)%Q;
     Backend.random_choice := fun _ => Backend.Chinstrap |}.

Lemma coin_unit_interval : Backend.unit_interval coin.
Proof. intros i. simpl. split; [apply Qle_bool_iff | apply Qltb_lt]; reflexivity. Qed.

(** Two members of a list without repeated keys that share their key are
    the same member. *)
Lemma NoDup_map_eq {A B : Type} (f : A -> B) (l : list A) (a b : A) :
  NoDup (map f l) -> In a l -> In b l -> f a = f b -> a = b.
Proof.
  induction l as [| x l IH]; simpl; intros Hnd Ha Hb Hf; [contradiction |].
  inversion Hnd as [| ? ? Hnotin Hnd']; subst.
  destruct Ha as [-> | Ha], Hb as [-> | Hb]; auto.
  - exfalso. apply Hnotin. rewrite Hf. now apply in_map.
  - exfalso. apply Hnotin. rewrite <- Hf. now apply in_map.
Qed.

(** ** The random source at full accuracy *)

Module BackendSpec.

Import Backend.

(** [random.random()] is below 1.0, so a quality of 1.0 always keeps the
    prediction. *)
Lemma get_fake_label_full_quality (rnd : random) (i : nat) (p : option string) :
  unit_interval rnd -> get_fake_label rnd i p 1%Q = p.
Proof.
  intros Hu. unfold get_fake_label.
  destruct (Hu i) as [_ Hlt].
  apply Qltb_lt in Hlt. now rewrite Hlt.
Qed.

End BackendSpec.

(** ** The local backend *)

Module LocalSpec.

Import Backend Local.

(** *** label *)

(** The UPDATEs of [label], one per unlabeled row, on a table. *)
Fixpoint relabel (rnd : random) (ground_truth_quality : Q) (i : nat)
    (df rows : list row) : list row :=
  match df with
  | [] => rows
  | r :: df' =>
      relabel rnd ground_truth_quality (S i) df'
        (update_ground_truth
           (get_fake_label rnd i (prediction r) ground_truth_quality)
           (uuid r) rows)
  end.

(** Whether the fault keeps a run over [n] unlabeled rows from its commit. *)
Definition strikes (fault : label_fault) (n : nat) : bool :=
  match fault with
  | LabelNoFault => false
  | LabelUpdateFails k => Nat.ltb k n
  | LabelConnectFails | LabelSelectFails | LabelCommitFails => true
  end.

(** The loop never touches what is committed. *)
Lemma label_rows_committed rnd q fault df :
  forall i c, committed (snd (label_rows rnd q fault i df c)) = committed c.
Proof.
  induction df as [| r df IH]; simpl; intros i c; [reflexivity |].
  destruct (update_fails fault i); [reflexivity |].
  now rewrite IH.
Qed.

(** A loop that meets no failing UPDATE leaves all the UPDATEs pending. *)
Lemma label_rows_runs rnd q fault df :
  forall i c,
    (forall j, i <= j < i + length df -> update_fails fault j = false) ->
    exists c',
      label_rows rnd q fault i df c = (true, c') /\
      view c' = relabel rnd q i df (view c).
Proof.
  induction df as [| r df IH]; simpl; intros i c Hok.
  - now exists c.
  - rewrite (Hok i) by lia.
    destruct (IH (S i) (execute (get_fake_label rnd i (prediction r) q) (uuid r) c))
      as [c' [Hrun Hview]].
    + intros j Hj. apply Hok. lia.
    + exists c'. split; [exact Hrun |]. rewrite Hview. reflexivity.
Qed.

(** A failing UPDATE stops the loop. *)
Lemma label_rows_fails rnd q k df :
  forall i c,
    i <= k < i + length df ->
    fst (label_rows rnd q (LabelUpdateFails k) i df c) = false.
Proof.
  induction df as [| r df IH]; simpl; intros i c Hk; [lia |].
  destruct (Nat.eqb_spec k i) as [-> | Hne]; [reflexivity |].
  apply IH. lia.
Qed.

Lemma label_on_table rows q rnd fault :
  label (Table rows) q rnd fault =
  if strikes fault (length (filter unlabeled rows))
  then (Returned 0, Table rows)
  else (Returned (length (filter unlabeled rows)),
        Table (relabel rnd q 0 (filter unlabeled rows) rows)).
Proof.
  unfold label. cbn [negb exists_ open_ view pending committed].
  destruct fault as [| | | k |]; cbn [strikes]; try reflexivity.
  - (* no fault *)
    destruct (filter unlabeled rows) as [| r df] eqn:Edf; [reflexivity |].
    destruct (label_rows_runs rnd q LabelNoFault (r :: df) 0 (open_ rows))
      as [c' [Hrun Hview]]; [reflexivity |].
    rewrite Hrun. unfold close, commit. cbn [committed].
    rewrite Hview. reflexivity.
  - (* the k-th UPDATE fails *)
    destruct (filter unlabeled rows) as [| r df] eqn:Edf.
    + reflexivity.
    + destruct (Nat.ltb_spec k (length (r :: df))) as [Hlt | Hge].
      * pose proof (label_rows_fails rnd q k (r :: df) 0 (open_ rows)) as Hfail.
        pose proof (label_rows_committed rnd q (LabelUpdateFails k) (r :: df) 0 (open_ rows))
          as Hkept.
        destruct (label_rows rnd q (LabelUpdateFails k) 0 (r :: df) (open_ rows))
          as [done c'].
        cbn [fst snd] in Hfail, Hkept. rewrite Hfail by lia.
        unfold close. rewrite Hkept. reflexivity.
      * destruct (label_rows_runs rnd q (LabelUpdateFails k) (r :: df) 0 (open_ rows))
          as [c' [Hrun Hview]].
        { intros j Hj. cbn [update_fails]. apply Nat.eqb_neq. lia. }
        rewrite Hrun. unfold close, commit. cbn [committed].
        rewrite Hview. reflexivity.
  - (* the commit fails *)
    destruct (filter unlabeled rows) as [| r df] eqn:Edf; [reflexivity |].
    pose proof (label_rows_committed rnd q LabelCommitFails (r :: df) 0 (open_ rows))
      as Hkept.
    destruct (label_rows rnd q LabelCommitFails 0 (r :: df) (open_ rows)) as [done c'].
    cbn [snd] in Hkept. unfold close. rewrite Hkept.
    destruct done; reflexivity.
Qed.


(** *** label at full accuracy *)

(** What label(1.0) makes of a row. *)
Definition labeled_as_predicted (r : row) : row :=
  if unlabeled r then set_ground_truth (prediction r) r else r.

(** The unlabeled rows of a table with distinct identifiers have distinct
    identifiers. *)
Lemma unlabeled_distinct (rows : list row) :
  NoDup (map uuid rows) -> NoDup (map uuid (filter unlabeled rows)).
Proof.
  intros Hrows. induction rows as [| r rows IH]; [constructor |].
  apply NoDup_cons_iff in Hrows. destruct Hrows as [Hfresh Hrows].
  cbn [filter]. destruct (unlabeled r); [| now apply IH].
  cbn [map]. apply NoDup_cons; [| now apply IH].
  intros Hin. apply Hfresh. apply in_map_iff in Hin.
  destruct Hin as [r' [Hid Hr']]. apply filter_In in Hr'.
  apply in_map_iff. exists r'. tauto.
Qed.

Lemma relabel_full_quality rnd :
  unit_interval rnd ->
  forall df i rows,
    NoDup (map uuid df) ->
    relabel rnd 1%Q i df rows =
    map (fun r =>
           match find (fun d => String.eqb (uuid d) (uuid r)) df with
           | Some d => set_ground_truth (prediction d) r
           | None => r
           end) rows.
Proof.
  intros Hu. induction df as [| d df IH]; intros i rows Hnd.
  - simpl. now rewrite map_id.
  - inversion Hnd as [| ? ? Hnotin Hnd']; subst.
    cbn [relabel]. rewrite BackendSpec.get_fake_label_full_quality by exact Hu.
    rewrite IH by exact Hnd'. unfold update_ground_truth. rewrite map_map.
    apply map_ext. intros r. cbn [find].
    destruct (String.eqb_spec (uuid r) (uuid d)) as [Heq | Hne].
    + cbn [set_ground_truth uuid]. rewrite Heq, String.eqb_refl.
      destruct (find (fun d0 => String.eqb (uuid d0) (uuid d)) df) as [d' |] eqn:Hfind;
        [| reflexivity].
      exfalso. apply find_some in Hfind. destruct Hfind as [Hin Heqb].
      apply String.eqb_eq in Heqb. apply Hnotin. rewrite <- Heqb. now apply in_map.
    + destruct (String.eqb_spec (uuid d) (uuid r)) as [Heq' | _]; [congruence |].
      reflexivity.
Qed.

Lemma label_full_quality_table rnd rows :
  unit_interval rnd ->
  NoDup (map uuid rows) ->
  label (Table rows) 1%Q rnd LabelNoFault =
  (Returned (length (filter unlabeled rows)), Table (map labeled_as_predicted rows)).
Proof.
  intros Hu Hnd. rewrite label_on_table. cbn [strikes].
  rewrite (relabel_full_quality rnd Hu) by (now apply unlabeled_distinct).
  f_equal. f_equal. apply map_ext_in. intros r Hr. unfold labeled_as_predicted.
  destruct (find (fun d => String.eqb (uuid d) (uuid r)) (filter unlabeled rows))
    as [d |] eqn:Hfind.
  - apply find_some in Hfind. destruct Hfind as [Hin Heqb].
    apply String.eqb_eq in Heqb. apply filter_In in Hin. destruct Hin as [Hin Hun].
    assert (d = r) by (eapply NoDup_map_eq; eauto). subst d.
    now rewrite Hun.
  - destruct (unlabeled r) eqn:Hun; [| reflexivity].
    exfalso.
    assert (Hin : In r (filter unlabeled rows)) by (apply filter_In; tauto).
    pose proof (find_none _ _ Hfind r Hin) as Hne. cbv beta in Hne.
    rewrite String.eqb_refl in Hne. discriminate.
Qed.

(** C2. On a store whose rows have distinct identifiers, with draws of
    [random.random()] in [[0, 1)], a label(1.0) that meets no storage failure
    leaves, row by row, a table in which every row that had no ground truth
    has its stored prediction as ground truth (and is otherwise the row it
    was), and every row that had a ground truth is unchanged. *)
Theorem label_full_accuracy :
  forall (db : database) (rnd : random),
    unit_interval rnd ->
    NoDup (map uuid (rows_of db)) ->
    Forall2
      (fun r r' =>
         (ground_truth r = None ->
          ground_truth r' = prediction r' /\ prediction r' = prediction r /\
          uuid r' = uuid r /\ features r' = features r /\ date r' = date r /\
          confidence r' = confidence r) /\
         (ground_truth r <> None -> r' = r))
      (rows_of db)
      (rows_of (snd (label db 1%Q rnd LabelNoFault))).
Proof.
  intros db rnd Hu Hnd. destruct db as [| | rows]; try constructor.
  cbn [rows_of] in *. rewrite label_full_quality_table by assumption.
  cbn [snd rows_of]. clear Hnd.
  induction rows as [| r rows IH]; simpl; constructor; auto.
  unfold labeled_as_predicted, unlabeled.
  destruct (ground_truth r) eqn:Hgt; simpl; split; intros H; try congruence; auto.
  repeat split; reflexivity.
Qed.

(** *** save *)

(** An item that has both keys. *)
Definition complete (item : output_item) : Prop :=
  item_prediction item <> None /\ item_confidence item <> None.

(** The outputs [save] can pair with [n] input rows: none, or one complete
    item per row. *)
Definition well_formed (n : nat) (model_output : option (list output_item)) : Prop :=
  match model_output with
  | None | Some [] => True
  | Some items => length items = n /\ Forall complete items
  end.


(** The row [save] builds from an input row and its item. *)
Definition scored_row (now : Z) (item : output_item) (p : penguin) : row :=
  {| features := p; date := Some now;
     prediction := item_prediction item; confidence := item_confidence item;
     ground_truth := None; uuid := "" |}.

Lemma traverse_length {A B : Type} (f : A -> outcome B) (l : list A) :
  forall vs, traverse f l = Returned vs -> length vs = length l.
Proof.
  induction l as [| a l IH]; simpl; intros vs H.
  - inversion H. reflexivity.
  - destruct (f a) as [b | e]; simpl in H; [| discriminate].
    destruct (traverse f l) as [bs | e]; simpl in H; [| discriminate].
    inversion H. simpl. f_equal. now apply IH.
Qed.

Lemma traverse_getitem {A : Type} (get : output_item -> option A) (items : list output_item) :
  Forall (fun item => get item <> None) items ->
  exists vs, traverse (getitem get) items = Returned vs /\ map Some vs = map get items.
Proof.
  induction 1 as [| item items Hitem _ IH]; simpl.
  - now exists [].
  - destruct IH as [vs [Hvs Hmap]]. unfold getitem at 1.
    destruct (get item) as [v |] eqn:Hv; [| congruence].
    rewrite Hvs. simpl. exists (v :: vs). simpl. now rewrite Hmap.
Qed.

Lemma zip_with_length {A B C : Type} (f : A -> B -> C) (l : list A) :
  forall m, length l = length m -> length (zip_with f l m) = length m.
Proof.
  induction l as [| a l IH]; destruct m as [| b m]; simpl; intros H; try congruence.
  f_equal. apply IH. congruence.
Qed.

Lemma set_column_same_length {A : Type} (set : A -> row -> row) (values : list A)
    (data : list row) :
  length values = length data ->
  set_column set values data = Returned (zip_with set values data).
Proof.
  intros Hlen. unfold set_column.
  destruct data as [| r data]; destruct values as [| v values]; simpl in Hlen;
    try discriminate; try reflexivity.
  injection Hlen as Hlen. simpl. rewrite Hlen, Nat.eqb_refl. reflexivity.
Qed.

Lemma set_column_mismatch {A : Type} (set : A -> row -> row) (values : list A)
    (data : list row) :
  data <> [] -> length values <> length data ->
  set_column set values data = Raised ValueError.
Proof.
  intros Hdata Hlen. unfold set_column.
  destruct data as [| r data]; [congruence |].
  apply Nat.eqb_neq in Hlen. now rewrite Hlen.
Qed.




(** The outputs that are accepted fill both columns from the items. *)
Lemma fill_outputs_well_formed (now : Z) (model_input : list penguin)
    (item : output_item) (items : list output_item) :
  length (item :: items) = length model_input ->
  Forall complete (item :: items) ->
  fill_outputs (map (new_row now) model_input) (Some (item :: items)) =
  Returned (zip_with (scored_row now) (item :: items) model_input).
Proof.
  intros Hlen Hall. unfold fill_outputs.
  destruct (traverse_getitem item_prediction (item :: items)) as [ps [Hps Hpmap]].
  { eapply Forall_impl; [| exact Hall]. intros a [H _]. exact H. }
  destruct (traverse_getitem item_confidence (item :: items)) as [cs [Hcs Hcmap]].
  { eapply Forall_impl; [| exact Hall]. intros a [_ H]. exact H. }
  rewrite Hps. cbn [bind].
  assert (Hpl : length ps = length (item :: items)) by (now apply traverse_length in Hps).
  assert (Hcl : length cs = length (item :: items)) by (now apply traverse_length in Hcs).
  rewrite set_column_same_length by (rewrite length_map; congruence).
  cbn [bind]. rewrite Hcs. cbn [bind].
  rewrite set_column_same_length
    by (rewrite zip_with_length; rewrite length_map; congruence).
  f_equal. clear Hps Hcs Hpl Hcl Hall.
  revert ps cs model_input Hpmap Hcmap Hlen.
  generalize (item :: items) as its.
  induction its as [| it its IH]; intros ps cs input Hp Hc Hlen;
    destruct ps as [| p ps]; destruct cs as [| c cs]; destruct input as [| x input];
    simpl in *; try discriminate; try reflexivity.
  inversion Hp. inversion Hc. f_equal.
  - unfold set_confidence, set_prediction, scored_row, new_row. simpl. congruence.
  - apply IH; auto.
Qed.





Lemma rows_of_connect (db : database) : rows_of (connect db) = rows_of db.
Proof. now destruct db. Qed.



Lemma traverse_getitem_returned {A : Type} (get : output_item -> option A)
    (items : list output_item) :
  forall vs, traverse (getitem get) items = Returned vs ->
    Forall (fun item => get item <> None) items.
Proof.
  induction items as [| item items IH]; simpl; intros vs H; [constructor |].
  unfold getitem in H at 1. destruct (get item) as [v |] eqn:Hv; simpl in H; [| discriminate].
  destruct (traverse (getitem get) items) as [bs | e]; simpl in H; [| discriminate].
  constructor; [congruence | now apply (IH bs)].
Qed.





(** *** Sample data *)

Definition adelie_output : output_item :=
  {| item_prediction := Some "Adelie"; item_confidence := Some (93 # 100)%Q |}.

Definition gentoo_output : output_item :=
  {| item_prediction := Some "Gentoo"; item_confidence := Some (88 # 100)%Q |}.

Definition first_ids (i : nat) : string :=
  match i with 0 => "6f1c" | 1 => "a2d9" | _ => "e07b" end.

Definition later_ids (i : nat) : string :=
  match i with 0 => "19c4" | 1 => "b85e" | _ => "d3a0" end.



(** *** save: what is raised, what is swallowed *)

(** An item without one of the two keys. *)
Definition incomplete (item : output_item) : Prop :=
  item_prediction item = None \/ item_confidence item = None.

Lemma save_raised (db : database) (now : Z) (uuid4 : nat -> string)
    (model_input : list penguin) (model_output : option (list output_item))
    (fault : save_fault) :
  fault <> SaveConnectFails ->
  raises (fill_outputs (map (new_row now) model_input) model_output) ->
  raises (fst (save db now uuid4 model_input model_output fault)) /\
  snd (save db now uuid4 model_input model_output fault) = connect db.
Proof.
  intros Hfault [e He]. unfold save. rewrite He.
  destruct fault; try congruence; simpl; split; try reflexivity; now exists e.
Qed.

Lemma fill_outputs_raises (now : Z) (model_input : list penguin)
    (items : list output_item) :
  items <> [] ->
  (model_input <> [] /\ length items <> length model_input) \/ Exists incomplete items ->
  raises (fill_outputs (map (new_row now) model_input) (Some items)).
Proof.
  intros Hne Hbad. unfold fill_outputs.
  destruct items as [| item items]; [congruence |].
  destruct (traverse (getitem item_prediction) (item :: items)) as [ps | e] eqn:Hps;
    [| now exists e].
  cbn [bind].
  destruct (set_column set_prediction ps (map (new_row now) model_input)) as [X | e] eqn:HX;
    [| now exists e].
  cbn [bind].
  destruct (traverse (getitem item_confidence) (item :: items)) as [cs | e] eqn:Hcs;
    [| now exists e].
  cbn [bind]. exfalso.
  destruct Hbad as [[Hin Hlen] | Hex].
  - rewrite set_column_mismatch in HX; [discriminate | |].
    + destruct model_input; [congruence | discriminate].
    + apply traverse_length in Hps. rewrite length_map. congruence.
  - apply traverse_getitem_returned in Hps. apply traverse_getitem_returned in Hcs.
    apply Exists_exists in Hex. destruct Hex as [it [Hit [Hp | Hc]]].
    + rewrite Forall_forall in Hps. exact (Hps it Hit Hp).
    + rewrite Forall_forall in Hcs. exact (Hcs it Hit Hc).
Qed.

(** C10. Local.save swallows the failures of SQLite only. A non-empty
    output list whose length differs from the number of rows of a non-empty
    input table, or one of whose items lacks the prediction or the
    confidence key, makes save raise before anything is written: the store
    is the one the connection found (its rows are unchanged). A failure of
    SQLite itself, at the connection or at the write, is not raised: save
    returns and the rows of the store are unchanged. *)
Theorem save_raises_before_writing :
  forall (db : database) (now : Z) (uuid4 : nat -> string)
         (model_input : list penguin),
    (forall (items : list output_item) (fault : save_fault),
        fault <> SaveConnectFails ->
        items <> [] ->
        (model_input <> [] /\ length items <> length model_input) \/
        Exists incomplete items ->
        raises (fst (save db now uuid4 model_input (Some items) fault)) /\
        snd (save db now uuid4 model_input (Some items) fault) = connect db /\
        rows_of (snd (save db now uuid4 model_input (Some items) fault)) = rows_of db) /\
    (forall (model_output : option (list output_item)),
        save db now uuid4 model_input model_output SaveConnectFails = (Returned tt, db) /\
        (well_formed (length model_input) model_output ->
         fst (save db now uuid4 model_input model_output SaveWriteFails) = Returned tt /\
         rows_of (snd (save db now uuid4 model_input model_output SaveWriteFails)) = rows_of db)).
Proof.
  intros db now uuid4 model_input. split.
  - intros items fault Hfault Hne Hbad.
    destruct (save_raised db now uuid4 model_input (Some items) fault Hfault) as [Hr Hs].
    + now apply fill_outputs_raises.
    + split; [exact Hr |]. split; [exact Hs |]. rewrite Hs. apply rows_of_connect.
  - intros model_output. split; [reflexivity |].
    intros Hwf. unfold save.
    destruct (fill_outputs (map (new_row now) model_input) model_output) as [data | e] eqn:Hfill.
    + simpl. split; [reflexivity | apply rows_of_connect].
    + exfalso. destruct model_output as [[| item items] |]; try discriminate.
      destruct Hwf as [Hlen Hall].
      rewrite fill_outputs_well_formed in Hfill by assumption. discriminate.
Qed.

(** A concrete run of [save_raises_before_writing]: one output item for two
    input rows, on a store that holds one row. *)
Lemma save_raises_before_writing_witness :
  raises (fst (save (Table [scored_row 1600000000 gentoo_output dream]) 1700000000
                 first_ids [torgersen; biscoe] (Some [adelie_output]) SaveNoFault)) /\
  snd (save (Table [scored_row 1600000000 gentoo_output dream]) 1700000000
         first_ids [torgersen; biscoe] (Some [adelie_output]) SaveNoFault) =
    connect (Table [scored_row 1600000000 gentoo_output dream]) /\
  rows_of (snd (save (Table [scored_row 1600000000 gentoo_output dream]) 1700000000
                  first_ids [torgersen; biscoe] (Some [adelie_output]) SaveNoFault)) =
    rows_of (Table [scored_row 1600000000 gentoo_output dream]).
Proof.
  apply (proj1 (save_raises_before_writing
                  (Table [scored_row 1600000000 gentoo_output dream]) 1700000000
                  first_ids [torgersen; biscoe])).
  - discriminate.
  - discriminate.
  - left. split; [discriminate | simpl; lia].
Defined.


(** *** load *)















(** *** The scenario of three saved rows *)

(** Two scored rows are saved, then one row without outputs. *)
Definition scenario : database :=
  snd (save
         (snd (save NoFile 1700000000 first_ids [torgersen; biscoe]
                 (Some [adelie_output; gentoo_output]) SaveNoFault))
         1700000060 later_ids [dream] None SaveNoFault).

Lemma label_count (rows : list row) (q : Q) (rnd : random) :
  fst (label (Table rows) q rnd LabelNoFault) = Returned (length (filter unlabeled rows)).
Proof. rewrite label_on_table. reflexivity. Qed.

(** C8 as stated fails: on the scenario store label(1.0) returns 3, not 2;
    the unscored row is counted although its ground truth stays null. *)
Lemma scenario_label_returns_three :
  fst (label scenario 1%Q coin LabelNoFault) = Returned 3 /\
  fst (label scenario 1%Q coin LabelNoFault) <> Returned 2 /\
  map ground_truth (rows_of (snd (label scenario 1%Q coin LabelNoFault))) =
    [Some "Adelie"; Some "Gentoo"; None].
Proof.
  split; [| split].
  - vm_compute. reflexivity.
  - vm_compute. discriminate.
  - vm_compute. reflexivity.
Qed.

(** A concrete run of [label_full_accuracy], on the scenario store. *)
Lemma label_full_accuracy_witness :
  unit_interval coin /\
  NoDup (map uuid (rows_of scenario)) /\
  Forall2
    (fun r r' =>
       (ground_truth r = None ->
        ground_truth r' = prediction r' /\ prediction r' = prediction r /\
        uuid r' = uuid r /\ features r' = features r /\ date r' = date r /\
        confidence r' = confidence r) /\
       (ground_truth r <> None -> r' = r))
    (rows_of scenario)
    (rows_of (snd (label scenario 1%Q coin LabelNoFault))).
Proof.
  assert (Hids : NoDup (map uuid (rows_of scenario))).
  { simpl. repeat constructor; simpl; intuition discriminate. }
  split; [exact coin_unit_interval |]. split; [exact Hids |].
  exact (label_full_accuracy scenario coin coin_unit_interval Hids).
Defined.

(** C8, as the code has it. In the scenario store load(10) returns 3 rows,
    1 of them with a null prediction (the stored row has a null confidence
    too), and label(1.0) returns 3. In general a label that meets no storage
    failure returns the number of rows it found without ground truth,
    whatever their prediction, and label returns 0 when there is no such
    row or no table. *)
Theorem scenario_load_and_label :
  (exists rows,
      load scenario 10 = Returned (Some rows) /\
      length rows = 3 /\
      length (filter (fun r => is_none (l_prediction r)) rows) = 1) /\
  length (filter (fun r => is_none (prediction r) && is_none (confidence r))
                 (rows_of scenario)) = 1 /\
  (forall rnd, fst (label scenario 1%Q rnd LabelNoFault) = Returned 3) /\
  (forall rows q rnd,
      fst (label (Table rows) q rnd LabelNoFault) =
      Returned (length (filter unlabeled rows))) /\
  (forall rows q rnd fault,
      filter unlabeled rows = [] ->
      label (Table rows) q rnd fault = (Returned 0, Table rows)) /\
  (forall q rnd fault,
      label NoFile q rnd fault = (Returned 0, NoFile) /\
      label NoTable q rnd fault = (Returned 0, NoTable)).
Proof.
  split; [| split; [| split; [| split; [| split]]]].
  - eexists. split; [vm_compute; reflexivity |]. split; reflexivity.
  - vm_compute. reflexivity.
  - intros rnd. change scenario with (Table (rows_of scenario)).
    rewrite label_count. reflexivity.
  - apply label_count.
  - intros rows q rnd fault Hnone. rewrite label_on_table, Hnone. simpl.
    destruct (strikes fault 0); reflexivity.
  - intros q rnd fault. split; [reflexivity | destruct fault; reflexivity].
Qed.

(** *** A store that does not exist *)

Lemma load_without_file (limit : Z) : load NoFile limit = Returned None.
Proof. reflexivity. Qed.

Lemma label_without_file (q : Q) (rnd : random) (fault : label_fault) :
  label NoFile q rnd fault = (Returned 0, NoFile).
Proof. reflexivity. Qed.

End LocalSpec.

(** ** The Sagemaker backend *)

Module SagemakerSpec.

Import Backend Sagemaker.

(** *** The positional key *)

(** The key of a captured row and of a ground-truth row once both tables
    have their column [index]. *)
Definition key_of_sample (l : nat * sample) : nat * string :=
  (fst l, event_id (snd l)).

Definition key_of_label (g : nat * (string * option string)) : nat * string :=
  (fst g, fst (snd g)).

(** The label the ground-truth table holds under the key of a captured
    row, if any. *)
Definition lookup (l : nat * sample) (right : list (nat * (string * option string)))
    : option string :=
  match find (same_key (fst l) (snd l)) right with
  | Some g => snd (snd g)
  | None => None
  end.

(** The counter of a row is at least the number of rows of its event that
    came before the table. *)
Lemma cumcount_from_ge (events : list string) :
  forall above i e,
    In (i, e) (combine (cumcount_from above events) events) ->
    count_occ string_dec above e <= i.
Proof.
  induction events as [| e0 events IH]; intros above i e Hin; simpl in Hin;
    [contradiction |].
  destruct Hin as [Heq | Hin].
  - inversion Heq. subst. lia.
  - apply IH in Hin. simpl in Hin.
    destruct (string_dec e0 e); lia.
Qed.

(** Within a table, no two rows have the same event and the same counter. *)
Lemma cumcount_from_NoDup (events : list string) :
  forall above, NoDup (combine (cumcount_from above events) events).
Proof.
  induction events as [| e events IH]; intros above; simpl; constructor.
  - intros Hin. apply cumcount_from_ge in Hin. simpl in Hin.
    destruct (string_dec e e); [lia | congruence].
  - apply IH.
Qed.

Lemma combine_map_snd {A B C : Type} (f : B -> C) (l : list A) (t : list B) :
  map (fun g => (fst g, f (snd g))) (combine l t) = combine l (map f t).
Proof.
  revert t. induction l as [| a l IH]; destruct t as [| b t]; simpl; try reflexivity.
  now rewrite IH.
Qed.

Lemma index_ground_truth_keys (table : list (string * option string)) :
  NoDup (map key_of_label (index_ground_truth table)).
Proof.
  unfold index_ground_truth, key_of_label.
  rewrite (combine_map_snd fst). apply cumcount_from_NoDup.
Qed.

Lemma index_data_keys (data : list sample) :
  NoDup (map key_of_sample (index_data data)).
Proof.
  unfold index_data, key_of_sample.
  rewrite (combine_map_snd event_id). apply cumcount_from_NoDup.
Qed.

Lemma index_data_rows (data : list sample) : map snd (index_data data) = data.
Proof.
  unfold index_data, cumcount. generalize (@nil string) as above.
  induction data as [| s data IH]; intros above; simpl; [reflexivity |].
  now rewrite IH.
Qed.

Lemma same_key_spec (l : nat * sample) (g : nat * (string * option string)) :
  same_key (fst l) (snd l) g = true <-> key_of_label g = key_of_sample l.
Proof.
  unfold same_key, key_of_label, key_of_sample.
  rewrite andb_true_iff, String.eqb_eq, Nat.eqb_eq. split.
  - intros [H1 H2]. now rewrite H1, H2.
  - intros H. inversion H. auto.
Qed.

(** *** The merge *)

Lemma filter_at_most_one {A : Type} (p : A -> bool) (l : list A) :
  NoDup l ->
  (forall a b, In a l -> In b l -> p a = true -> p b = true -> a = b) ->
  filter p l = match find p l with Some g => [g] | None => [] end.
Proof.
  induction l as [| x l IH]; intros Hnd Huniq; simpl; [reflexivity |].
  inversion Hnd as [| ? ? Hnotin Hnd']; subst.
  destruct (p x) eqn:Hpx.
  - f_equal. destruct (filter p l) as [| y rest] eqn:Hf; [reflexivity |].
    exfalso. assert (Hy : In y (filter p l)) by (rewrite Hf; now left).
    apply filter_In in Hy. destruct Hy as [Hy Hpy].
    apply Hnotin. rewrite (Huniq x y); simpl; auto.
  - apply IH; [exact Hnd' |].
    intros a b Ha Hb. apply Huniq; now right.
Qed.

(** With at most one ground-truth row per key, the merge keeps the rows of
    the left table as they are and gives each the label under its key. *)
Lemma merge_left_lookup (left : list (nat * sample))
    (right : list (nat * (string * option string))) :
  NoDup (map key_of_label right) ->
  merge_left left right = map (fun l => with_species (lookup l right) (snd l)) left.
Proof.
  intros Hkeys. unfold merge_left.
  induction left as [| l left IH]; [reflexivity |].
  cbn [flat_map]. rewrite map_cons, IH. clear IH.
  rewrite (filter_at_most_one (same_key (fst l) (snd l)) right).
  - unfold lookup. destruct (find (same_key (fst l) (snd l)) right); reflexivity.
  - eapply NoDup_map_inv. exact Hkeys.
  - intros a b Ha Hb Hpa Hpb. apply same_key_spec in Hpa, Hpb.
    apply (NoDup_map_eq key_of_label right a b Hkeys Ha Hb). congruence.
Qed.

Lemma with_species_same (s : sample) : with_species (species s) s = s.
Proof. now destruct s. Qed.

(** The join as one pass over the captured table. *)
Lemma reconcile_lookup (data : list sample)
    (ground_truth : list (string * list (option string))) :
  Forall (fun s => species s = None) data ->
  reconcile data ground_truth =
  map (fun l => with_species (lookup l (index_ground_truth (explode ground_truth))) (snd l))
      (index_data data).
Proof.
  intros Hnone. unfold reconcile.
  destruct data as [| s data]; [reflexivity |].
  destruct ground_truth as [| g ground_truth].
  - simpl explode. unfold index_ground_truth. simpl combine.
    rewrite <- (index_data_rows (s :: data)) at 1. rewrite <- (index_data_rows (s :: data)) in Hnone.
    induction (index_data (s :: data)) as [| l left IH]; simpl; [reflexivity |].
    inversion Hnone as [| ? ? Hl Hrest]; subst.
    rewrite (IH Hrest). f_equal. unfold lookup. simpl.
    rewrite <- Hl. symmetry. apply with_species_same.
  - apply merge_left_lookup. apply index_ground_truth_keys.
Qed.

Lemma lookup_found (l : nat * sample) (right : list (nat * (string * option string)))
    (g : nat * (string * option string)) :
  NoDup (map key_of_label right) ->
  In g right -> key_of_label g = key_of_sample l ->
  lookup l right = snd (snd g).
Proof.
  intros Hkeys Hin Hkey. unfold lookup.
  destruct (find (same_key (fst l) (snd l)) right) as [g' |] eqn:Hfind.
  - apply find_some in Hfind. destruct Hfind as [Hin' Hp].
    apply same_key_spec in Hp.
    assert (g' = g) by (apply (NoDup_map_eq key_of_label right); congruence).
    now subst.
  - exfalso. pose proof (find_none _ _ Hfind g Hin) as Hp.
    apply same_key_spec in Hkey. congruence.
Qed.

Lemma lookup_missing (l : nat * sample) (right : list (nat * (string * option string))) :
  (forall g, In g right -> key_of_label g <> key_of_sample l) ->
  lookup l right = None.
Proof.
  intros Hnone. unfold lookup.
  destruct (find (same_key (fst l) (snd l)) right) as [g |] eqn:Hfind; [| reflexivity].
  exfalso. apply find_some in Hfind. destruct Hfind as [Hin Hp].
  apply same_key_spec in Hp. exact (Hnone g Hin Hp).
Qed.



(** *** What the loader hands to the join *)

Lemma traverse_Forall {A B : Type} (f : A -> outcome B) (P : B -> Prop) (l : list A) :
  (forall a b, f a = Returned b -> P b) ->
  forall bs, traverse f l = Returned bs -> Forall P bs.
Proof.
  intros Hf. induction l as [| a l IH]; simpl; intros bs H.
  - inversion H. constructor.
  - destruct (f a) as [b | e] eqn:Hb; simpl in H; [| discriminate].
    destruct (traverse f l) as [bs' | e]; simpl in H; [| discriminate].
    inversion H. constructor; eauto.
Qed.

Lemma process_row_unlabeled (c : capture) (rows : list sample) :
  process_row c = Returned rows -> Forall (fun s => species s = None) rows.
Proof.
  unfold process_row. destruct (input_rows (endpointInput c)); simpl; [| discriminate].
  intros H. inversion H. apply Forall_map. apply Forall_forall. reflexivity.
Qed.

Lemma sort_by_date_desc_Forall (P : sample -> Prop) (rows : list sample) :
  Forall P rows -> Forall P (sort_by_date_desc rows).
Proof.
  assert (Hins : forall r l, P r -> Forall P l -> Forall P (insert_desc r l)).
  { intros r l Hr. induction 1 as [| x l Hx Hl IH]; simpl.
    - now constructor.
    - destruct (String.leb (date x) (date r)); repeat constructor; auto. }
  induction 1; simpl; [constructor | now apply Hins].
Qed.

(** Every captured row reaches the join without a ground truth. *)
Lemma captured_unlabeled (b : bucket) (data : list sample) :
  _load_collected_data_files b = Returned data ->
  Forall (fun s => species s = None) data.
Proof.
  unfold _load_collected_data_files.
  destruct (_load_files (data_capture_uri b)) as [df |].
  - destruct (traverse process_row df) as [processed | e] eqn:Hp; simpl; [| discriminate].
    apply (traverse_Forall process_row (Forall (fun s => species s = None))) in Hp;
      [| apply process_row_unlabeled].
    unfold pd_concat. destruct processed as [| p rest]; simpl; [discriminate |].
    intros H. inversion H. apply sort_by_date_desc_Forall.
    apply Forall_concat in Hp. exact Hp.
  - intros H. inversion H. constructor.
Qed.

(** *** The join *)


(** *** Sample data *)

Definition captured_row (event : string) (time : string) (guess : string) : sample :=
  {| features := Some torgersen; prediction := Some guess;
     confidence := Some (9 # 10)%Q; date := time; event_id := event;
     species := None |}.

(** Two rows of event E1, one of event E2. *)
Definition three_rows : list sample :=
  [ captured_row "E1" "2024-05-02T10:00:00Z" "Adelie";
    captured_row "E2" "2024-05-01T09:30:00Z" "Gentoo";
    captured_row "E1" "2024-05-02T10:00:00Z" "Chinstrap" ].

(** One label for E1, and a label for an event that was never captured. *)
Definition two_batches : list (string * list (option string)) :=
  [ ("E1", [Some "Adelie"]); ("E9", [Some "Gentoo"]) ].

Example reconcile_three_rows :
  map species (reconcile three_rows two_batches) = [Some "Adelie"; None; None] /\
  map (with_species None) (reconcile three_rows two_batches) = three_rows.
Proof. split; reflexivity. Qed.



(** *** load *)





(** One capture object with one request of two rows, and one ground-truth
    object labelling the first row only. *)
Definition small_bucket : bucket :=
  {| data_capture_uri :=
       [ ("capture/2024/05/02/10/00-00.jsonl",
          [ {| inferenceTime := "2024-05-02T10:00:00Z"; eventId := "E1";
               endpointInput :=
                 {| instances := None; inputs := Some [torgersen; torgersen];
                    dataframe_split := None |};
               endpointOutput :=
                 [ {| out_prediction := "Adelie"; out_confidence := (9 # 10)%Q |};
                   {| out_prediction := "Gentoo"; out_confidence := (6 # 10)%Q |} ] |} ]) ];
     ground_truth_uri :=
       [ ("ground-truth/2024/05/03/08/1500.jsonl",
          [ {| groundTruthData := [Some "Chinstrap"]; gt_eventId := "E1" |} ]) ] |}.

Example load_small_bucket :
  load small_bucket 10 =
  Returned [ {| x_features := Some torgersen; x_prediction := Some "Adelie";
                ground_truth := Some "Chinstrap" |} ].
Proof. reflexivity. Qed.

Example cumcount_counts_within_the_event :
  cumcount ["E1"; "E2"; "E1"; "E1"; "E2"] = [0; 0; 1; 2; 1].
Proof. reflexivity. Qed.

(** An empty list of labels still makes a row, without label. *)
Example explode_keeps_the_empty_batch :
  explode [("E1", [Some "Adelie"; None]); ("E2", [])] =
  [("E1", Some "Adelie"); ("E1", None); ("E2", None)].
Proof. reflexivity. Qed.

(** label on [small_bucket] finds the second row of E1 unlabeled, writes
    one object with one line for E1, and the next load has both rows: the
    new label lands on the second row because the counter of the
    ground-truth rows of E1 runs across the two objects. *)
Example label_small_bucket :
  let after := snd (label small_bucket 1%Q coin "ground-truth/2024/05/04/09/3000.jsonl") in
  fst (label small_bucket 1%Q coin "ground-truth/2024/05/04/09/3000.jsonl") = Returned 1 /\
  ground_truth_uri after =
    ground_truth_uri small_bucket ++
    [ ("ground-truth/2024/05/04/09/3000.jsonl",
       [ {| groundTruthData := [Some "Gentoo"]; gt_eventId := "E1" |} ]) ] /\
  option_map (map ground_truth)
    (match load after 10 with Returned rows => Some rows | Raised _ => None end) =
    Some [Some "Chinstrap"; Some "Gentoo"].
Proof. vm_compute. repeat split; reflexivity. Qed.



(** *** A store that does not exist *)

(** No capture object, and a ground-truth prefix that holds only the
    zero-byte object of its "folder". *)
Definition folder_marker : bucket :=
  {| data_capture_uri := []; ground_truth_uri := [("ground-truth/", [])] |}.

Lemma ground_truth_files_read (b : bucket) :
  ground_truth_uri b = [] \/ concat (map snd (ground_truth_uri b)) <> [] ->
  exists batches, _load_ground_truth_files b = Returned batches.
Proof.
  unfold _load_ground_truth_files, _load_files.
  intros [Hnone | Hsome].
  - rewrite Hnone. now eexists.
  - destruct (ground_truth_uri b) as [| o objects]; [now eexists |].
    destruct (concat (map snd (o :: objects))) as [| line lines]; [congruence |].
    simpl. now eexists.
Qed.

(** C3. Without a database file, Local.load returns None and Local.label
    returns 0, for every limit, accuracy, random source and fault. Without
    capture objects, Sagemaker.load returns an empty table and
    Sagemaker.label returns 0 and writes nothing, provided the ground-truth
    prefix holds no object or at least one line. But when the ground-truth
    prefix holds objects without any line, as in [folder_marker], both
    raise ValueError: the ground-truth objects are read before the empty
    captured table is looked at. *)
Theorem absent_store_load_and_label :
  (forall limit, Local.load Local.NoFile limit = Returned None) /\
  (forall q rnd fault,
      Local.label Local.NoFile q rnd fault = (Returned 0, Local.NoFile)) /\
  (forall b limit q rnd key,
      data_capture_uri b = [] ->
      ground_truth_uri b = [] \/ concat (map snd (ground_truth_uri b)) <> [] ->
      load b limit = Returned [] /\ label b q rnd key = (Returned 0, b)) /\
  (forall limit q rnd key,
      load folder_marker limit = Raised ValueError /\
      label folder_marker q rnd key = (Raised ValueError, folder_marker)).
Proof.
  split; [| split; [| split]]; try reflexivity.
  - intros b limit q rnd key Hcapture Hgt.
    destruct (ground_truth_files_read b Hgt) as [batches Hbatches].
    unfold load, label, _load_unlabeled_data, _load_collected_data,
      _load_collected_data_files.
    rewrite Hcapture. cbn [_load_files bind]. rewrite Hbatches. split; reflexivity.
  - intros limit q rnd key. split; reflexivity.
Qed.

(** *** invoke *)

(** C6. Local.invoke never raises: whatever the serving process does,
    failure and timeout included, it returns, and then returns None. But
    Sagemaker.invoke raises what the deployment client raises when the
    endpoint cannot be reached or does not answer in time, and raises
    KeyError on an answer without predictions. *)
Theorem invoke_when_the_endpoint_fails :
  (forall (A : Type) (server : reply A), ~ raises (Local.invoke server)) /\
  (forall (A : Type),
      Local.invoke (@ConnectionFailed A) = Returned None /\
      Local.invoke (@TimedOut A) = Returned None) /\
  invoke ConnectionFailed = Raised ClientError /\
  invoke TimedOut = Raised ClientError /\
  invoke (Answer {| predictions := None |}) = Raised KeyError /\
  raises (invoke ConnectionFailed).
Proof.
  split; [| split; [| split; [| split; [| split]]]]; try reflexivity.
  - intros A server [e He]. destruct server; discriminate.
  - intros A. split; reflexivity.
  - now exists ClientError.
Qed.

End SagemakerSpec.

(** * Further properties of the local backend *)

Module LocalMore.

Import Backend Local LocalSpec.

(** ** What label writes *)

(** The columns of a row that label has no business with. *)
Definition keeps_columns (r r' : row) : Prop :=
  uuid r' = uuid r /\ features r' = features r /\ date r' = date r /\
  prediction r' = prediction r /\ confidence r' = confidence r.

Lemma keeps_columns_refl (r : row) : keeps_columns r r.
Proof. repeat split. Qed.

Lemma keeps_columns_trans (a b c : row) :
  keeps_columns a b -> keeps_columns b c -> keeps_columns a c.
Proof.
  unfold keeps_columns. intros [H1 [H2 [H3 [H4 H5]]]] [K1 [K2 [K3 [K4 K5]]]].
  repeat split; congruence.
Qed.

(** The UPDATEs of a run act on every row by itself: they keep its other
    columns, and leave alone a row whose identifier is not among those of
    the unlabeled rows. *)
Lemma relabel_rowwise (rnd : random) (q : Q) (df : list row) :
  forall i, exists G : row -> row,
    (forall rows, relabel rnd q i df rows = map G rows) /\
    (forall r, keeps_columns r (G r)) /\
    (forall r, ~ In (uuid r) (map uuid df) -> G r = r).
Proof.
  induction df as [| d df IH]; intros i.
  - exists (fun r => r). split; [| split].
    + intros rows. simpl. now rewrite map_id.
    + apply keeps_columns_refl.
    + reflexivity.
  - destruct (IH (S i)) as [G [Hmap [Hcols Hfix]]].
    set (l := get_fake_label rnd i (prediction d) q).
    exists (fun r => G (if String.eqb (uuid r) (uuid d) then set_ground_truth l r else r)).
    split; [| split].
    + intros rows. cbn [relabel]. fold l. rewrite Hmap.
      unfold update_ground_truth. now rewrite map_map.
    + intros r. destruct (String.eqb (uuid r) (uuid d)).
      * eapply keeps_columns_trans; [| apply Hcols]. repeat split.
      * apply Hcols.
    + intros r Hnot. destruct (String.eqb_spec (uuid r) (uuid d)) as [Heq | Hne].
      * exfalso. apply Hnot. simpl. left. congruence.
      * apply Hfix. intros Hin. apply Hnot. simpl. now right.
Qed.

Lemma label_result (db : database) (q : Q) (rnd : random) (fault : label_fault) :
  snd (label db q rnd fault) = db \/
  exists rows, db = Table rows /\
    snd (label db q rnd fault) =
      Table (relabel rnd q 0 (filter unlabeled rows) rows).
Proof.
  destruct db as [| | rows].
  - left. reflexivity.
  - left. destruct fault; reflexivity.
  - rewrite label_on_table.
    destruct (strikes fault (length (filter unlabeled rows))).
    + left. reflexivity.
    + right. exists rows. split; reflexivity.
Qed.

(** X1. Whatever the accuracy, the random source and the fault, label
    neither adds nor removes nor reorders rows and writes no column but
    ground_truth: row by row, the identifier, the features, the date, the
    prediction and the confidence are what they were. *)
Theorem label_writes_ground_truth_only :
  forall (db : database) (q : Q) (rnd : random) (fault : label_fault),
    exists_ (snd (label db q rnd fault)) = exists_ db /\
    Forall2 keeps_columns (rows_of db) (rows_of (snd (label db q rnd fault))).
Proof.
  intros db q rnd fault.
  assert (Hsame : forall l, Forall2 keeps_columns l l).
  { induction l; constructor; auto using keeps_columns_refl. }
  destruct (label_result db q rnd fault) as [Heq | [rows [Hdb Heq]]]; rewrite Heq.
  - split; [reflexivity | apply Hsame].
  - subst db. split; [reflexivity |]. cbn [rows_of].
    destruct (relabel_rowwise rnd q (filter unlabeled rows) 0) as [G [Hmap [Hcols _]]].
    rewrite Hmap. clear Hmap Heq.
    induction rows as [| r rows IH]; simpl; constructor; auto.
Qed.

(** X2. In a store whose rows have distinct identifiers, label never
    touches a row that already has a ground truth, whatever the accuracy,
    the random source and the fault. *)
Theorem label_keeps_existing_labels :
  forall (db : database) (q : Q) (rnd : random) (fault : label_fault),
    NoDup (map uuid (rows_of db)) ->
    Forall2 (fun r r' => ground_truth r <> None -> r' = r)
      (rows_of db) (rows_of (snd (label db q rnd fault))).
Proof.
  intros db q rnd fault Hnd.
  assert (Hsame : forall l : list row,
             Forall2 (fun r r' => ground_truth r <> None -> r' = r) l l).
  { induction l; constructor; auto. }
  destruct (label_result db q rnd fault) as [Heq | [rows [Hdb Heq]]]; rewrite Heq.
  - apply Hsame.
  - subst db. cbn [rows_of] in *.
    destruct (relabel_rowwise rnd q (filter unlabeled rows) 0) as [G [Hmap [_ Hfix]]].
    rewrite Hmap. clear Hmap Heq.
    assert (Hall : forall r, In r rows -> ground_truth r <> None -> G r = r).
    { intros r Hin Hgt. apply Hfix. intros Huuid.
      apply in_map_iff in Huuid. destruct Huuid as [d [Hd Hdin]].
      apply filter_In in Hdin. destruct Hdin as [Hdin Hun].
      assert (d = r) by (eapply NoDup_map_eq; eauto). subst d.
      unfold unlabeled in Hun. destruct (ground_truth r); [discriminate | congruence]. }
    clear Hnd Hfix.
    induction rows as [| r rows IH]; simpl; constructor.
    + apply Hall. now left.
    + apply IH. intros r' Hin. apply Hall. now right.
Qed.

(** A concrete run of [label_keeps_existing_labels]: the scenario store
    labelled twice, the second time at accuracy 0. *)
Lemma label_keeps_existing_labels_witness :
  NoDup (map uuid (rows_of (snd (label scenario 1%Q coin LabelNoFault)))) /\
  Forall2 (fun r r' => ground_truth r <> None -> r' = r)
    (rows_of (snd (label scenario 1%Q coin LabelNoFault)))
    (rows_of (snd (label (snd (label scenario 1%Q coin LabelNoFault)) 0%Q coin LabelNoFault))).
Proof.
  assert (Hids : NoDup (map uuid (rows_of (snd (label scenario 1%Q coin LabelNoFault))))).
  { vm_compute. repeat constructor; simpl; intuition discriminate. }
  split; [exact Hids |].
  exact (label_keeps_existing_labels _ 0%Q coin LabelNoFault Hids).
Defined.


(** ** A run that labels every row *)

Lemma get_fake_label_of_prediction (rnd : random) (i : nat) (p : option string) (q : Q) :
  p <> None -> get_fake_label rnd i p q <> None.
Proof.
  intros Hp. unfold get_fake_label.
  destruct (Qltb (random_random rnd i) q); [exact Hp | discriminate].
Qed.

Lemma get_fake_label_no_quality (rnd : random) (i : nat) (p : option string) (q : Q) :
  (q <= 0)%Q -> unit_interval rnd ->
  get_fake_label rnd i p q = Some (species_name (random_choice rnd i)).
Proof.
  intros Hq Hu. unfold get_fake_label.
  destruct (Qltb (random_random rnd i) q) eqn:Hlt; [| reflexivity].
  exfalso. apply Qltb_lt in Hlt. destruct (Hu i) as [Hge _].
  apply (Qlt_not_le _ _ Hlt). now apply Qle_trans with 0%Q.
Qed.

Lemma relabel_labels_all (rnd : random) (q : Q) (df : list row) :
  (forall d j, In d df -> get_fake_label rnd j (prediction d) q <> None) ->
  forall i rows,
    Forall (fun r => ground_truth r <> None \/ In (uuid r) (map uuid df)) rows ->
    Forall (fun r => ground_truth r <> None) (relabel rnd q i df rows).
Proof.
  induction df as [| d df IH]; intros Hlabel i rows Hrows.
  - simpl. eapply Forall_impl; [| exact Hrows]. simpl. tauto.
  - cbn [relabel]. apply IH.
    + intros d' j Hd'. apply Hlabel. now right.
    + unfold update_ground_truth. apply Forall_map.
      eapply Forall_impl; [| exact Hrows]. intros r Hr.
      destruct (String.eqb_spec (uuid r) (uuid d)) as [Heq | Hne].
      * left. simpl. apply Hlabel. now left.
      * destruct Hr as [Hgt | [Hhead | Htail]]; [now left | congruence | now right].
Qed.

(** X3. When every row without ground truth has a prediction, or when the
    accuracy is 0 or less (with draws in [[0, 1)]), a label that meets no
    storage failure leaves no row without ground truth; a second label,
    whatever its accuracy, random source and fault, then returns 0 and
    changes nothing. *)
Theorem label_leaves_nothing_to_label :
  forall (rows : list row) (q : Q) (rnd : random),
    Forall (fun r => prediction r <> None) (filter unlabeled rows) \/
    ((q <= 0)%Q /\ unit_interval rnd) ->
    Forall (fun r => ground_truth r <> None)
      (rows_of (snd (label (Table rows) q rnd LabelNoFault))) /\
    forall q' rnd' fault',
      label (snd (label (Table rows) q rnd LabelNoFault)) q' rnd' fault' =
      (Returned 0, snd (label (Table rows) q rnd LabelNoFault)).
Proof.
  intros rows q rnd Hcase. rewrite label_on_table. cbn [strikes snd rows_of].
  assert (Hall : Forall (fun r => ground_truth r <> None)
                   (relabel rnd q 0 (filter unlabeled rows) rows)).
  { apply relabel_labels_all.
    - intros d j Hd. destruct Hcase as [Hpred | [Hq Hu]].
      + apply get_fake_label_of_prediction.
        rewrite Forall_forall in Hpred. now apply Hpred.
      + rewrite get_fake_label_no_quality by assumption. discriminate.
    - apply Forall_forall. intros r Hr.
      destruct (ground_truth r) eqn:Hgt; [left; discriminate |].
      right. apply in_map. apply filter_In. split; [exact Hr |].
      unfold unlabeled. now rewrite Hgt. }
  split; [exact Hall |].
  intros q' rnd' fault'. rewrite label_on_table.
  assert (Hnone : filter unlabeled (relabel rnd q 0 (filter unlabeled rows) rows) = []).
  { induction Hall as [| r l Hr _ IH]; simpl; [reflexivity |].
    unfold unlabeled at 1. destruct (ground_truth r); [exact IH | congruence]. }
  rewrite Hnone. simpl. destruct (strikes fault' 0); reflexivity.
Qed.

(** A concrete run of [label_leaves_nothing_to_label]: the scenario store,
    with its unscored row, labelled at accuracy 0. *)
Lemma label_leaves_nothing_to_label_witness :
  Forall (fun r => ground_truth r <> None)
    (rows_of (snd (label (Table (rows_of scenario)) 0%Q coin LabelNoFault))) /\
  forall q' rnd' fault',
    label (snd (label (Table (rows_of scenario)) 0%Q coin LabelNoFault)) q' rnd' fault' =
    (Returned 0, snd (label (Table (rows_of scenario)) 0%Q coin LabelNoFault)).
Proof.
  apply (label_leaves_nothing_to_label (rows_of scenario) 0%Q coin).
  right. split; [apply Qle_bool_iff; reflexivity | exact coin_unit_interval].
Defined.

(** ** The label domain *)

(** Null, or one of the three class names. *)
Definition in_domain (o : option string) : Prop :=
  o = None \/ exists s : species, o = Some (species_name s).

Lemma get_fake_label_in_domain (rnd : random) (i : nat) (p : option string) (q : Q) :
  in_domain p -> in_domain (get_fake_label rnd i p q).
Proof.
  intros Hp. unfold get_fake_label.
  destruct (Qltb (random_random rnd i) q); [exact Hp |].
  right. now exists (random_choice rnd i).
Qed.

Lemma relabel_in_domain (rnd : random) (q : Q) (df : list row) :
  Forall (fun d => in_domain (prediction d)) df ->
  forall i rows,
    Forall (fun r => in_domain (ground_truth r)) rows ->
    Forall (fun r => in_domain (ground_truth r)) (relabel rnd q i df rows).
Proof.
  induction 1 as [| d df Hd _ IH]; intros i rows Hrows; [exact Hrows |].
  cbn [relabel]. apply IH. unfold update_ground_truth. apply Forall_map.
  eapply Forall_impl; [| exact Hrows]. intros r Hr.
  destruct (String.eqb (uuid r) (uuid d)); [| exact Hr].
  simpl. now apply get_fake_label_in_domain.
Qed.

(** X4. label keeps the ground truth within the label domain: in a table
    whose predictions and ground truths are null or one of Adelie,
    Chinstrap, Gentoo, they still are after label, whatever the accuracy,
    the random source and the fault. *)
Theorem label_keeps_the_label_domain :
  forall (db : database) (q : Q) (rnd : random) (fault : label_fault),
    Forall (fun r => in_domain (prediction r)) (rows_of db) ->
    Forall (fun r => in_domain (ground_truth r)) (rows_of db) ->
    Forall (fun r => in_domain (ground_truth r))
      (rows_of (snd (label db q rnd fault))).
Proof.
  intros db q rnd fault Hpred Hgt.
  destruct (label_result db q rnd fault) as [Heq | [rows [Hdb Heq]]]; rewrite Heq.
  - exact Hgt.
  - subst db. cbn [rows_of] in *. apply relabel_in_domain; [| exact Hgt].
    apply Forall_forall. intros d Hd. apply filter_In in Hd.
    rewrite Forall_forall in Hpred. now apply Hpred.
Qed.

(** A concrete run of [label_keeps_the_label_domain] on the scenario
    store. *)
Lemma label_keeps_the_label_domain_witness :
  Forall (fun r => in_domain (ground_truth r))
    (rows_of (snd (label scenario (1 # 2)%Q coin LabelNoFault))).
Proof.
  apply (label_keeps_the_label_domain scenario (1 # 2)%Q coin LabelNoFault).
  - repeat apply Forall_cons; try apply Forall_nil; simpl;
      first [ now left | right; now exists Adelie | right; now exists Gentoo ].
  - repeat apply Forall_cons; try apply Forall_nil; now left.
Defined.


(** ** Identifiers *)

Lemma stamp_uuids_ids (uuid4 : nat -> string) (data : list row) :
  map uuid (stamp_uuids uuid4 data) = map uuid4 (seq 0 (length data)).
Proof.
  unfold stamp_uuids. generalize 0 as start.
  induction data as [| r data IH]; intros start; simpl; [reflexivity |].
  now rewrite IH.
Qed.

(** What save leaves in the store: the rows it found, followed by the rows
    it built with identifiers drawn in order, or by nothing. *)
Lemma save_result (db : database) (now : Z) (uuid4 : nat -> string)
    (model_input : list penguin) (model_output : option (list output_item))
    (fault : save_fault) :
  exists data,
    rows_of (snd (save db now uuid4 model_input model_output fault)) = rows_of db ++ data /\
    map uuid data = map uuid4 (seq 0 (length data)).
Proof.
  assert (Hnothing : forall db', rows_of db' = rows_of db ->
            exists data, rows_of db' = rows_of db ++ data /\
                         map uuid data = map uuid4 (seq 0 (length data))).
  { intros db' H. exists []. rewrite app_nil_r. now split. }
  unfold save.
  destruct (fill_outputs (map (new_row now) model_input) model_output) as [data | e].
  - destruct fault; cbn [snd].
    + exists (stamp_uuids uuid4 data). unfold to_sql_append. rewrite rows_of_connect.
      split; [reflexivity |]. rewrite stamp_uuids_ids.
      unfold stamp_uuids. rewrite zip_with_length; [reflexivity |].
      now rewrite length_map, length_seq.
    + now apply Hnothing.
    + apply Hnothing. apply rows_of_connect.
  - destruct fault; cbn [snd]; apply Hnothing; try reflexivity; apply rows_of_connect.
Qed.

(** X5. save keeps the identifiers of the store distinct: when the rows of
    the store have distinct identifiers and the identifiers uuid4 draws are
    distinct from one another and from those of the store, the rows have
    distinct identifiers after save, whatever the input, the outputs and
    the fault, and also when save raises. *)
Theorem save_keeps_identifiers_distinct :
  forall (db : database) (now : Z) (uuid4 : nat -> string)
         (model_input : list penguin) (model_output : option (list output_item))
         (fault : save_fault),
    NoDup (map uuid (rows_of db)) ->
    (forall i j, uuid4 i = uuid4 j -> i = j) ->
    (forall i, ~ In (uuid4 i) (map uuid (rows_of db))) ->
    NoDup (map uuid (rows_of (snd (save db now uuid4 model_input model_output fault)))).
Proof.
  intros db now uuid4 model_input model_output fault Hstore Hinj Hfresh.
  destruct (save_result db now uuid4 model_input model_output fault) as [data [Hrows Hids]].
  rewrite Hrows, map_app, Hids.
  generalize (seq_NoDup (length data) 0). generalize (seq 0 (length data)) as ns.
  intros ns Hns. clear Hrows Hids.
  induction (map uuid (rows_of db)) as [| u us IH]; simpl.
  - induction Hns as [| n ns Hn _ IHns]; simpl; constructor; [| exact IHns].
    intros Hin. apply in_map_iff in Hin. destruct Hin as [m [Hm Hmin]].
    apply Hinj in Hm. subst m. contradiction.
  - apply NoDup_cons_iff in Hstore. destruct Hstore as [Hu Hus].
    constructor.
    + intros Hin. apply in_app_or in Hin. destruct Hin as [Hin | Hin]; [contradiction |].
      apply in_map_iff in Hin. destruct Hin as [m [Hm _]].
      apply (Hfresh m). left. now symmetry.
    + apply IH; [exact Hus |]. intros i Hin. apply (Hfresh i). now right.
Qed.

(** Identifiers that are all distinct and none of which is short. *)
Definition numbered (i : nat) : string :=
  String.append "row-" (String.concat "" (repeat "i" i)).

Lemma numbered_length (i : nat) : String.length (numbered i) = 4 + i.
Proof.
  unfold numbered. simpl. repeat f_equal.
  induction i as [| i IH]; [reflexivity |].
  destruct i as [| i]; [reflexivity |].
  change (repeat "i" (S (S i))) with ("i" :: repeat "i" (S i)).
  cbn [String.concat]. cbn [repeat] in *.
  simpl String.append. simpl String.length. f_equal. exact IH.
Qed.

(** A concrete run of [save_keeps_identifiers_distinct]. *)
Lemma save_keeps_identifiers_distinct_witness :
  NoDup (map uuid (rows_of (snd (save scenario 1700000120 numbered [dream; biscoe]
                                     (Some [gentoo_output; adelie_output]) SaveNoFault)))).
Proof.
  apply (save_keeps_identifiers_distinct scenario 1700000120 numbered).
  - simpl. repeat apply NoDup_cons; try apply NoDup_nil; simpl; intuition discriminate.
  - intros i j H. apply (f_equal String.length) in H.
    rewrite !numbered_length in H. lia.
  - intros i Hin. simpl in Hin.
    assert (Hlen : String.length (numbered i) = 4) by
      (destruct Hin as [H | [H | [H | []]]]; now rewrite <- H).
    rewrite numbered_length in Hlen.
    assert (i = 0) by lia. subst i.
    unfold numbered in Hin. simpl in Hin. intuition discriminate.
Defined.


(** ** What load returns *)



(** ** A store that was opened but never written *)

(** X7. A save that raises on a store without file leaves the file behind
    without the table: from then on load raises DatabaseError, for every
    limit, where it returned None before the save, while label still
    returns 0. *)
Theorem load_after_a_save_that_raised :
  forall (now : Z) (uuid4 : nat -> string) (model_input : list penguin)
         (model_output : option (list output_item)) (fault : save_fault),
    raises (fst (save NoFile now uuid4 model_input model_output fault)) ->
    forall limit q rnd fault',
      load NoFile limit = Returned None /\
      load (snd (save NoFile now uuid4 model_input model_output fault)) limit =
        Raised DatabaseError /\
      fst (label (snd (save NoFile now uuid4 model_input model_output fault)) q rnd fault') =
        Returned 0.
Proof.
  intros now uuid4 model_input model_output fault [e He] limit q rnd fault'.
  split; [reflexivity |].
  unfold save in *.
  destruct fault; try discriminate;
    destruct (fill_outputs (map (new_row now) model_input) model_output);
    try discriminate; cbn [snd connect]; split; try reflexivity;
    destruct fault'; reflexivity.
Qed.

(** A concrete run of [load_after_a_save_that_raised]: the first save ever
    is given one output for two rows. *)
Lemma load_after_a_save_that_raised_witness :
  load NoFile 10 = Returned None /\
  load (snd (save NoFile 1700000000 first_ids [torgersen; biscoe]
               (Some [adelie_output]) SaveNoFault)) 10 = Raised DatabaseError /\
  fst (label (snd (save NoFile 1700000000 first_ids [torgersen; biscoe]
                     (Some [adelie_output]) SaveNoFault)) (8 # 10)%Q coin LabelNoFault) =
    Returned 0.
Proof.
  apply (load_after_a_save_that_raised 1700000000 first_ids [torgersen; biscoe]
           (Some [adelie_output]) SaveNoFault).
  exists ValueError. reflexivity.
Defined.

End LocalMore.

(** * Further properties of the Sagemaker backend *)

Module SagemakerMore.

Import Backend Sagemaker SagemakerSpec.

(** ** The counter within an event *)

Lemma cumcount_from_first (events : list string) :
  forall above e,
    In e events ->
    In (count_occ string_dec above e, e) (combine (cumcount_from above events) events).
Proof.
  induction events as [| e0 events IH]; intros above e Hin; [contradiction |].
  simpl. destruct (string_dec e0 e) as [-> | Hne]; [now left |].
  right. destruct Hin as [Heq | Hin]; [congruence |].
  specialize (IH (e0 :: above) e Hin). simpl in IH.
  destruct (string_dec e0 e); [congruence | exact IH].
Qed.

Lemma cumcount_from_below (events : list string) :
  forall above i e,
    In (i, e) (combine (cumcount_from above events) events) ->
    forall j, count_occ string_dec above e <= j <= i ->
      In (j, e) (combine (cumcount_from above events) events).
Proof.
  induction events as [| e0 events IH]; intros above i e Hin j Hj; [contradiction |].
  simpl in *. destruct Hin as [Heq | Hin].
  - inversion Heq. subst. left. f_equal. lia.
  - pose proof (cumcount_from_ge events (e0 :: above) i e Hin) as Hge.
    simpl in Hge. destruct (string_dec e0 e) as [-> | Hne].
    + destruct (Nat.eq_dec j (count_occ string_dec above e)) as [-> | Hj'];
        [now left |].
      right. apply (IH (e :: above) i e Hin). simpl.
      destruct (string_dec e e); [lia | congruence].
    + right. apply (IH (e0 :: above) i e Hin). simpl.
      destruct (string_dec e0 e); [congruence | lia].
Qed.

Lemma cumcount_numbers_events (events : list string) :
  NoDup (combine (cumcount events) events) /\
  (forall e, In e events -> In (0, e) (combine (cumcount events) events)) /\
  (forall i e, In (S i, e) (combine (cumcount events) events) ->
               In (i, e) (combine (cumcount events) events)).
Proof.
  unfold cumcount. split; [| split].
  - apply cumcount_from_NoDup.
  - intros e Hin. apply (cumcount_from_first events [] e Hin).
  - intros i e Hin. apply (cumcount_from_below events [] (S i) e Hin). simpl. lia.
Qed.

Lemma index_data_key_list (data : list sample) :
  map key_of_sample (index_data data) =
  combine (cumcount (map event_id data)) (map event_id data).
Proof. unfold index_data, key_of_sample. apply (combine_map_snd event_id). Qed.

Lemma index_ground_truth_key_list (table : list (string * option string)) :
  map key_of_label (index_ground_truth table) =
  combine (cumcount (map fst table)) (map fst table).
Proof. unfold index_ground_truth, key_of_label. apply (combine_map_snd fst). Qed.

(** X8. The column [index] that _load_collected_data gives the captured
    table and the exploded ground-truth table numbers the rows of each
    event 0, 1, 2, ... in row order: in either table no two rows have the
    same (index, event_id) key, every event of the table has a row of index
    0, and a row of index i + 1 comes with a row of index i of the same
    event. *)
Theorem index_numbers_each_event :
  forall (data : list sample) (table : list (string * option string)),
    (NoDup (map key_of_sample (index_data data)) /\
     (forall e, In e (map event_id data) ->
                In (0, e) (map key_of_sample (index_data data))) /\
     (forall i e, In (S i, e) (map key_of_sample (index_data data)) ->
                  In (i, e) (map key_of_sample (index_data data)))) /\
    (NoDup (map key_of_label (index_ground_truth table)) /\
     (forall e, In e (map fst table) ->
                In (0, e) (map key_of_label (index_ground_truth table))) /\
     (forall i e, In (S i, e) (map key_of_label (index_ground_truth table)) ->
                  In (i, e) (map key_of_label (index_ground_truth table)))).
Proof.
  intros data table. rewrite index_data_key_list, index_ground_truth_key_list.
  split; apply cumcount_numbers_events.
Qed.

(** ** From a captured line to rows *)

(** A request body without any of the three keys. *)
Definition shapeless (d : input_data) : Prop :=
  instances d = None /\ inputs d = None /\ dataframe_split d = None.

Lemma concat_columns_length (xs : list penguin) :
  forall ys, length (concat_columns xs ys) = Nat.max (length xs) (length ys).
Proof.
  induction xs as [| x xs IH]; intros ys; simpl.
  - now rewrite length_map.
  - destruct ys as [| y ys]; simpl.
    + now rewrite length_map.
    + now rewrite IH.
Qed.

Lemma concat_columns_aligned (xs : list penguin) :
  forall ys, length xs = length ys ->
    concat_columns xs ys = combine (map Some xs) (map Some ys).
Proof.
  induction xs as [| x xs IH]; destruct ys as [| y ys]; simpl; intros H;
    try discriminate; [reflexivity |].
  rewrite IH by congruence. reflexivity.
Qed.

(** X9. process_row raises KeyError on a request body that has neither
    "instances" nor "inputs" nor "dataframe_split". Otherwise it returns as
    many rows as the longer of the inputs and the predictions, every row
    stamped with the line's event and inference time and without ground
    truth; and when there is one prediction per input row, row i has the
    features of input i and the prediction and confidence of output i. *)
Theorem process_row_aligns_inputs_and_outputs :
  forall (c : capture),
    (shapeless (endpointInput c) -> process_row c = Raised KeyError) /\
    (forall xs, input_rows (endpointInput c) = Returned xs ->
       exists rows,
         process_row c = Returned rows /\
         length rows = Nat.max (length xs) (length (endpointOutput c)) /\
         Forall (fun s => event_id s = eventId c /\ date s = inferenceTime c /\
                          species s = None) rows /\
         (length xs = length (endpointOutput c) ->
          map features rows = map Some xs /\
          map prediction rows = map (fun y => Some (out_prediction y)) (endpointOutput c) /\
          map confidence rows = map (fun y => Some (out_confidence y)) (endpointOutput c))).
Proof.
  intros c. split.
  - intros [H1 [H2 H3]]. unfold process_row, input_rows. now rewrite H1, H2, H3.
  - intros xs Hxs. unfold process_row. rewrite Hxs. cbn [bind].
    eexists. split; [reflexivity |]. split; [| split].
    + now rewrite length_map, concat_columns_length.
    + apply Forall_map. apply Forall_forall. intros xy _. simpl. tauto.
    + intros Hlen. rewrite !map_map. cbn [features prediction confidence].
      rewrite (concat_columns_aligned xs _ Hlen).
      generalize (endpointOutput c) as ys, Hlen. clear.
      induction xs as [| x xs IH]; destruct ys as [| y ys]; simpl; intros H;
        try discriminate; [repeat split |].
      destruct (IH ys) as [H1 [H2 H3]]; [congruence |].
      now rewrite H1, H2, H3.
Qed.

(** A concrete run of [process_row_aligns_inputs_and_outputs]: a captured
    line with two inputs and two predictions. *)
Lemma process_row_aligns_inputs_and_outputs_witness :
  exists rows,
    process_row {| inferenceTime := "2024-05-02T10:00:00Z"; eventId := "E1";
                   endpointInput :=
                     {| instances := None; inputs := Some [torgersen; biscoe];
                        dataframe_split := None |};
                   endpointOutput :=
                     [ {| out_prediction := "Adelie"; out_confidence := (9 # 10)%Q |};
                       {| out_prediction := "Gentoo"; out_confidence := (6 # 10)%Q |} ] |} =
      Returned rows /\
    map features rows = [Some torgersen; Some biscoe] /\
    map prediction rows = [Some "Adelie"; Some "Gentoo"].
Proof.
  destruct (process_row_aligns_inputs_and_outputs
              {| inferenceTime := "2024-05-02T10:00:00Z"; eventId := "E1";
                 endpointInput :=
                   {| instances := None; inputs := Some [torgersen; biscoe];
                      dataframe_split := None |};
                 endpointOutput :=
                   [ {| out_prediction := "Adelie"; out_confidence := (9 # 10)%Q |};
                     {| out_prediction := "Gentoo"; out_confidence := (6 # 10)%Q |} ] |})
    as [_ H].
  destruct (H _ eq_refl) as [rows [Hrun [_ [_ Haligned]]]].
  destruct (Haligned eq_refl) as [Hf [Hp _]].
  exists rows. split; [exact Hrun | split; [exact Hf | exact Hp]].
Defined.


(** ** The captured table *)

(** [a] is listed before [b]: its inference time is no earlier. *)
Definition later_first (a b : sample) : Prop := String.leb (date b) (date a) = true.

Lemma leb_trans (a b c : string) :
  String.leb a b = true -> String.leb b c = true -> String.leb a c = true.
Proof.
  unfold String.leb. intros Hab Hbc.
  destruct (String.compare a b) eqn:Eab; try discriminate;
    destruct (String.compare b c) eqn:Ebc; try discriminate.
  - apply String.compare_eq_iff in Eab. subst. now rewrite Ebc.
  - apply String.compare_eq_iff in Eab. subst. now rewrite Ebc.
  - apply String.compare_eq_iff in Ebc. subst. now rewrite Eab.
  - apply String_as_OT.cmp_lt in Eab, Ebc.
    pose proof (String_as_OT.lt_trans _ _ _ Eab Ebc) as Hac.
    apply String_as_OT.cmp_lt in Hac. unfold String_as_OT.cmp in Hac. now rewrite Hac.
Qed.

Lemma leb_flip (a b : string) : String.leb a b = false -> String.leb b a = true.
Proof.
  intros H. destruct (String.leb_total a b) as [Hab | Hba]; congruence.
Qed.

Lemma insert_desc_permutation (r : sample) (l : list sample) :
  Permutation (insert_desc r l) (r :: l).
Proof.
  induction l as [| x l IH]; simpl; [reflexivity |].
  destruct (String.leb (date x) (date r)); [reflexivity |].
  rewrite IH. apply perm_swap.
Qed.

Lemma sort_by_date_desc_permutation (rows : list sample) :
  Permutation (sort_by_date_desc rows) rows.
Proof.
  induction rows as [| r rows IH]; simpl; [reflexivity |].
  rewrite insert_desc_permutation. now constructor.
Qed.

Lemma sort_by_date_desc_sorted (rows : list sample) :
  StronglySorted later_first (sort_by_date_desc rows).
Proof.
  induction rows as [| r rows IH]; simpl; [constructor |].
  induction IH as [| x l Hsorted IHl Hx]; simpl.
  - repeat constructor.
  - destruct (String.leb (date x) (date r)) eqn:Hle.
    + constructor; [now constructor |].
      constructor; [exact Hle |].
      eapply Forall_impl; [| exact Hx].
      intros y Hy. unfold later_first in *. eapply leb_trans; eauto.
    + constructor; [exact IHl |].
      assert (Hall : Forall (later_first x) (r :: l)).
      { constructor; [| exact Hx]. now apply leb_flip. }
      rewrite <- (insert_desc_permutation r l) in Hall. exact Hall.
Qed.

(** Every line of every capture object. *)
Definition captured_lines (b : bucket) : list capture :=
  concat (map snd (data_capture_uri b)).

Lemma traverse_process_row_raises (lines : list capture) :
  Exists (fun c => shapeless (endpointInput c)) lines ->
  traverse process_row lines = Raised KeyError.
Proof.
  induction 1 as [c lines [H1 [H2 H3]] | c lines _ IH]; simpl.
  - unfold process_row, input_rows. now rewrite H1, H2, H3.
  - destruct (process_row c) as [rows | e] eqn:Hc; simpl.
    + now rewrite IH.
    + unfold process_row in Hc.
      destruct (input_rows (endpointInput c)) as [xs | e'] eqn:Hxs; simpl in Hc;
        [discriminate |].
      unfold input_rows in Hxs.
      destruct (instances (endpointInput c)), (inputs (endpointInput c)),
        (dataframe_split (endpointInput c)); try discriminate.
      congruence.
Qed.

(** X10. _load_collected_data_files returns an empty table when the prefix
    lists no object, raises ValueError when it lists objects that hold no
    line at all, and raises KeyError when some line has a request body
    without any of the three keys. When it returns, the table holds the
    rows of every line of every object and nothing else (a permutation of
    their concatenation), latest inference time first. *)
Theorem captured_table_holds_every_line :
  forall (b : bucket),
    (data_capture_uri b = [] -> _load_collected_data_files b = Returned []) /\
    (data_capture_uri b <> [] -> captured_lines b = [] ->
     _load_collected_data_files b = Raised ValueError) /\
    (Exists (fun c => shapeless (endpointInput c)) (captured_lines b) ->
     _load_collected_data_files b = Raised KeyError) /\
    (forall data, _load_collected_data_files b = Returned data ->
       exists processed,
         traverse process_row (captured_lines b) = Returned processed /\
         Permutation data (concat processed) /\
         StronglySorted later_first data).
Proof.
  intros b. unfold _load_collected_data_files, _load_files, captured_lines.
  split; [| split; [| split]].
  - intros H. now rewrite H.
  - intros Hne Hempty. destruct (data_capture_uri b) as [| o objects]; [congruence |].
    rewrite Hempty. reflexivity.
  - intros Hex. destruct (data_capture_uri b) as [| o objects].
    + simpl in Hex. inversion Hex.
    + now rewrite traverse_process_row_raises.
  - intros data. destruct (data_capture_uri b) as [| o objects].
    + intros H. inversion H. exists []. repeat split; constructor.
    + destruct (traverse process_row (concat (map snd (o :: objects))))
        as [processed | e]; cbn [bind]; [| discriminate].
      unfold pd_concat. destruct processed as [| p rest]; cbn [bind]; [discriminate |].
      intros H. inversion H. exists (p :: rest). split; [reflexivity |].
      split; [apply sort_by_date_desc_permutation | apply sort_by_date_desc_sorted].
Qed.

(** A concrete run of [captured_table_holds_every_line]: the captured table
    of [small_bucket]. *)
Lemma captured_table_holds_every_line_witness :
  exists data processed,
    _load_collected_data_files small_bucket = Returned data /\
    traverse process_row (captured_lines small_bucket) = Returned processed /\
    Permutation data (concat processed) /\
    StronglySorted later_first data.
Proof.
  destruct (captured_table_holds_every_line small_bucket) as [_ [_ [_ H]]].
  destruct (H _ eq_refl) as [processed [Hrun [Hperm Hsorted]]].
  eexists; exists processed.
  split; [reflexivity | split; [exact Hrun | split; [exact Hperm | exact Hsorted]]].
Defined.


(** ** Objects under a prefix *)


Lemma compare_same (a : string) : String.compare a a = Eq.
Proof.
  pose proof (String.compare_antisym a a) as H.
  destruct (String.compare a a); simpl in H; congruence.
Qed.

Lemma compare_lt_trans (a b c : string) :
  String.compare a b = Lt -> String.compare b c = Lt -> String.compare a c = Lt.
Proof.
  intros Hab Hbc. apply String_as_OT.cmp_lt in Hab, Hbc.
  apply (String_as_OT.cmp_lt a c). eapply String_as_OT.lt_trans; eauto.
Qed.

Lemma compare_gt_lt (a b : string) : String.compare a b = Gt -> String.compare b a = Lt.
Proof. intros H. rewrite String.compare_antisym, H. reflexivity. Qed.



(** ** Groups of rows *)

Definition ascending (keys : list string) : Prop :=
  StronglySorted (fun a b => String.compare a b = Lt) keys.

Lemma insert_key_In (e x : string) (keys : list string) :
  In x (insert_key e keys) <-> x = e \/ In x keys.
Proof.
  induction keys as [| k keys IH]; simpl; [intuition congruence |].
  destruct (String.compare e k) eqn:Hcmp; simpl.
  - apply String.compare_eq_iff in Hcmp. subst. intuition congruence.
  - intuition congruence.
  - rewrite IH. intuition congruence.
Qed.

Lemma insert_key_ascending (e : string) (keys : list string) :
  ascending keys -> ascending (insert_key e keys).
Proof.
  induction 1 as [| k keys Hs IH Hk]; simpl; [repeat constructor |].
  destruct (String.compare e k) eqn:Hcmp.
  - now constructor.
  - constructor; [now constructor |].
    constructor; [exact Hcmp |].
    eapply Forall_impl; [| exact Hk]. intros y Hy. eapply compare_lt_trans; eauto.
  - constructor; [exact IH |].
    apply Forall_forall. intros y Hy. apply insert_key_In in Hy.
    destruct Hy as [-> | Hy]; [now apply compare_gt_lt |].
    rewrite Forall_forall in Hk. now apply Hk.
Qed.

Lemma ascending_NoDup (keys : list string) : ascending keys -> NoDup keys.
Proof.
  induction 1 as [| k keys _ IH Hk]; constructor; [| exact IH].
  intros Hin. rewrite Forall_forall in Hk. specialize (Hk k Hin).
  rewrite compare_same in Hk. discriminate.
Qed.

Lemma filter_either {A : Type} (p q : A -> bool) (l : list A) :
  (forall a, p a = true -> q a = false) ->
  Permutation (filter (fun a => p a || q a) l) (filter p l ++ filter q l).
Proof.
  intros Hpq. induction l as [| a l IH]; simpl; [reflexivity |].
  destruct (p a) eqn:Hp; simpl.
  - rewrite (Hpq a Hp). now constructor.
  - destruct (q a); [| exact IH].
    rewrite IH. apply Permutation_middle.
Qed.

Lemma groups_cover (data : list sample) (keys : list string) :
  NoDup keys ->
  Permutation
    (concat (map (fun e => filter (fun s => String.eqb (event_id s) e) data) keys))
    (filter (fun s => existsb (String.eqb (event_id s)) keys) data).
Proof.
  induction 1 as [| k keys Hk _ IH]; simpl.
  - induction data; simpl; auto.
  - rewrite IH. symmetry. apply filter_either.
    intros s Hs. apply String.eqb_eq in Hs.
    destruct (existsb (String.eqb (event_id s)) keys) eqn:Hex; [| reflexivity].
    exfalso. apply existsb_exists in Hex. destruct Hex as [x [Hx Heq]].
    apply String.eqb_eq in Heq. apply Hk. congruence.
Qed.

Lemma filter_all {A : Type} (p : A -> bool) (l : list A) :
  (forall a, In a l -> p a = true) -> filter p l = l.
Proof.
  induction l as [| a l IH]; simpl; intros H; [reflexivity |].
  rewrite (H a) by now left. f_equal. apply IH. intros x Hx. apply H. now right.
Qed.

Lemma group_keys (data : list sample) :
  ascending (fold_right insert_key [] (map event_id data)) /\
  forall e, In e (fold_right insert_key [] (map event_id data)) <-> In e (map event_id data).
Proof.
  induction data as [| s data [IHs IHin]]; simpl.
  - split; [constructor | tauto].
  - split; [now apply insert_key_ascending |].
    intros e. rewrite insert_key_In, IHin. intuition congruence.
Qed.

Lemma groups_are_the_table (data : list sample) :
  Permutation (concat (map snd (groupby data))) data.
Proof.
  destruct (group_keys data) as [Hasc Hin].
  unfold groupby. rewrite map_map. cbn [snd].
  rewrite groups_cover by (now apply ascending_NoDup).
  rewrite filter_all; [reflexivity |].
  intros s Hs. apply existsb_exists. exists (event_id s).
  split; [| apply String.eqb_refl].
  apply Hin. now apply in_map.
Qed.

(** groupby("event_id") splits a table into one group per event of the
    table, the events in strictly ascending order; each group holds the
    rows of its event in their order in the table and is not empty, and the
    groups together are the rows of the table. *)
Lemma groupby_partitions_the_table :
  forall (data : list sample),
    ascending (map fst (groupby data)) /\
    (forall e, In e (map fst (groupby data)) <-> In e (map event_id data)) /\
    Forall (fun g => snd g = filter (fun s => String.eqb (event_id s) (fst g)) data /\
                     snd g <> [])
           (groupby data) /\
    Permutation (concat (map snd (groupby data))) data.
Proof.
  intros data. destruct (group_keys data) as [Hasc Hin].
  split; [| split; [| split; [| apply groups_are_the_table]]];
    unfold groupby; rewrite ?map_map; cbn [fst snd]; rewrite ?map_id.
  - exact Hasc.
  - exact Hin.
  - apply Forall_map. apply Forall_forall. intros e He. cbn [fst snd].
    split; [reflexivity |].
    apply Hin in He. apply in_map_iff in He. destruct He as [s [Hs Hsin]].
    intros Hnil.
    assert (Hmem : In s (filter (fun s0 => String.eqb (event_id s0) e) data)).
    { apply filter_In. split; [exact Hsin |]. now apply String.eqb_eq. }
    rewrite Hnil in Hmem. contradiction.
Qed.

(** ** What label uploads *)

Lemma fake_labels_length (rnd : random) (q : Q) (rows : list sample) :
  forall i, length (fake_labels rnd q i rows) = length rows.
Proof.
  induction rows as [| r rows IH]; intros i; simpl; [reflexivity | now rewrite IH].
Qed.

Lemma fake_labels_full_quality (rnd : random) (rows : list sample) :
  unit_interval rnd ->
  forall i, fake_labels rnd 1%Q i rows = map prediction rows.
Proof.
  intros Hu. induction rows as [| r rows IH]; intros i; simpl; [reflexivity |].
  rewrite BackendSpec.get_fake_label_full_quality by exact Hu. now rewrite IH.
Qed.

Lemma label_groups_events (rnd : random) (q : Q) (groups : list (string * list sample)) :
  forall i,
    map gt_eventId (label_groups rnd q i groups) = map fst groups /\
    map (fun line => length (groundTruthData line)) (label_groups rnd q i groups) =
      map (fun g => length (snd g)) groups.
Proof.
  induction groups as [| [e rows] groups IH]; intros i; simpl; [split; reflexivity |].
  destruct (IH (i + length rows)) as [H1 H2].
  rewrite H1, H2, fake_labels_length. split; reflexivity.
Qed.

Lemma label_groups_full_quality (rnd : random) (groups : list (string * list sample)) :
  unit_interval rnd ->
  forall i,
    map groundTruthData (label_groups rnd 1%Q i groups) =
    map (fun g => map prediction (snd g)) groups.
Proof.
  intros Hu. induction groups as [| [e rows] groups IH]; intros i; simpl; [reflexivity |].
  rewrite fake_labels_full_quality by exact Hu. now rewrite IH.
Qed.

Lemma concat_lengths {A : Type} (ls : list (list A)) :
  length (concat ls) = list_sum (map (@length A) ls).
Proof.
  induction ls as [| l ls IH]; simpl; [reflexivity |].
  now rewrite length_app, IH.
Qed.

(** X11. Sagemaker.label with nothing unlabeled returns 0 and uploads
    nothing. Otherwise (the captured table having its output columns) it
    returns the number of unlabeled rows, leaves the capture prefix as it
    is and puts one object under the upload key: one line per event that
    has an unlabeled row, the events in ascending order, each line with one
    label per unlabeled row of its event, so as many labels in all as rows
    counted; at accuracy 1.0 (draws in [[0, 1)]) the labels of a line are
    the predictions of those rows, in their order. *)
Theorem label_uploads_one_line_per_event :
  forall (b : bucket) (q : Q) (rnd : random) (key : string) (data : list sample),
    _load_unlabeled_data b = Returned data ->
    (data = [] -> label b q rnd key = (Returned 0, b)) /\
    (data <> [] -> has_output_columns b = true ->
     exists records,
       label b q rnd key =
         (Returned (length data),
          {| data_capture_uri := data_capture_uri b;
             ground_truth_uri := put_object key records (ground_truth_uri b) |}) /\
       map gt_eventId records = map fst (groupby data) /\
       map (fun line => length (groundTruthData line)) records =
         map (fun g => length (snd g)) (groupby data) /\
       length (concat (map groundTruthData records)) = length data /\
       (q = 1%Q -> unit_interval rnd ->
        map groundTruthData records = map (fun g => map prediction (snd g)) (groupby data))).
Proof.
  intros b q rnd key data Hdata. unfold label. rewrite Hdata. split.
  - intros ->. reflexivity.
  - intros Hne Hcols. destruct data as [| s data]; [congruence |]. rewrite Hcols.
    exists (label_groups rnd q 0 (groupby (s :: data))).
    destruct (label_groups_events rnd q (groupby (s :: data)) 0) as [Hev Hlen].
    split; [reflexivity |]. split; [exact Hev |]. split; [exact Hlen |]. split.
    + rewrite concat_lengths, map_map, Hlen.
      rewrite <- (Permutation_length (groups_are_the_table (s :: data))).
      rewrite concat_lengths, map_map. reflexivity.
    + intros -> Hu. now apply label_groups_full_quality.
Qed.

(** A concrete run of [label_uploads_one_line_per_event] on
    [small_bucket], whose second row is unlabeled. *)
Lemma label_uploads_one_line_per_event_witness :
  exists data,
    _load_unlabeled_data small_bucket = Returned data /\
    data <> [] /\
    exists records,
      label small_bucket 1%Q coin "ground-truth/2024/05/04/09/3000.jsonl" =
        (Returned (length data),
         {| data_capture_uri := data_capture_uri small_bucket;
            ground_truth_uri :=
              put_object "ground-truth/2024/05/04/09/3000.jsonl" records
                (ground_truth_uri small_bucket) |}) /\
      map gt_eventId records = map fst (groupby data) /\
      map (fun line => length (groundTruthData line)) records =
        map (fun g => length (snd g)) (groupby data) /\
      length (concat (map groundTruthData records)) = length data /\
      (1%Q = 1%Q -> unit_interval coin ->
       map groundTruthData records = map (fun g => map prediction (snd g)) (groupby data)).
Proof.
  eexists. split; [reflexivity |]. split; [discriminate |].
  apply (proj2 (label_uploads_one_line_per_event small_bucket 1%Q coin
                  "ground-truth/2024/05/04/09/3000.jsonl" _ eq_refl)).
  - discriminate.
  - reflexivity.
Defined.




(** ** Rows with and without ground truth *)

Lemma reconcile_length (data : list sample)
    (batches : list (string * list (option string))) :
  Forall (fun s => species s = None) data ->
  length (reconcile data batches) = length data.
Proof.
  intros Hnone. rewrite (reconcile_lookup data batches Hnone), length_map.
  rewrite <- (index_data_rows data) at 2. now rewrite length_map.
Qed.

Lemma labeled_or_not (joined : list sample) :
  length (filter (fun s => notna (species s)) joined) +
  length (filter (fun s => is_none (species s)) joined) = length joined.
Proof.
  induction joined as [| s joined IH]; simpl; [reflexivity |].
  unfold notna in *. destruct (is_none (species s)); simpl; lia.
Qed.

Lemma head_all {A : Type} (limit : Z) (l : list A) :
  (Z.of_nat (length l) <= limit)%Z -> head limit l = l.
Proof.
  intros H. unfold head. destruct (Z.ltb_spec limit 0); [lia |].
  apply firstn_all2. lia.
Qed.

(** X13. Every captured row is either returned by load or counted by
    label, never both and never neither: when both prefixes are read and
    the captured table has its output columns (or is empty), the number of
    rows of a load whose limit covers the captured table and the number
    label returns add up to the number of captured rows. *)
Theorem every_row_is_loaded_or_counted :
  forall (b : bucket) (q : Q) (rnd : random) (key : string) (limit : Z)
         (captured : list sample) (batches : list (string * list (option string))),
    _load_collected_data_files b = Returned captured ->
    _load_ground_truth_files b = Returned batches ->
    captured = [] \/ has_output_columns b = true ->
    (Z.of_nat (length captured) <= limit)%Z ->
    exists rows n,
      load b limit = Returned rows /\
      fst (label b q rnd key) = Returned n /\
      length rows + n = length captured.
Proof.
  intros b q rnd key limit captured batches Hdata Hgt Hcols Hlimit.
  pose proof (reconcile_length captured batches (captured_unlabeled b captured Hdata)) as Hlen.
  pose proof (labeled_or_not (reconcile captured batches)) as Hsplit.
  unfold load, label, _load_unlabeled_data, _load_collected_data.
  rewrite Hdata, Hgt. cbn [bind].
  destruct (reconcile captured batches) as [| s joined] eqn:Hjoin;
    rewrite ?Hjoin in Hlen, Hsplit.
  - exists [], 0. simpl in *. repeat split. lia.
  - assert (Hc : has_output_columns b = true).
    { destruct Hcols as [-> | Hc]; [discriminate | exact Hc]. }
    rewrite Hc.
    exists (head limit (map public (filter (fun s0 => notna (species s0)) (s :: joined)))),
           (length (filter (fun s0 => is_none (species s0)) (s :: joined))).
    split; [reflexivity |]. split.
    + destruct (filter (fun s0 => is_none (species s0)) (s :: joined)); reflexivity.
    + rewrite head_all.
      * rewrite length_map. lia.
      * rewrite length_map.
        pose proof (filter_length_le (fun s0 => notna (species s0)) (s :: joined)). lia.
Qed.

(** A concrete run of [every_row_is_loaded_or_counted] on [small_bucket]:
    one row loaded, one row counted. *)
Lemma every_row_is_loaded_or_counted_witness :
  exists rows n,
    load small_bucket 10 = Returned rows /\
    fst (label small_bucket (1 # 2)%Q coin "ground-truth/2024/05/04/09/3000.jsonl") =
      Returned n /\
    length rows + n = 2.
Proof.
  apply (every_row_is_loaded_or_counted small_bucket (1 # 2)%Q coin
           "ground-truth/2024/05/04/09/3000.jsonl" 10 _ _ eq_refl eq_refl).
  - right. reflexivity.
  - simpl. lia.
Defined.


(** ** The first labelling, read back *)

Lemma cumcount_from_same_counts (events : list string) :
  forall above above',
    (forall e, count_occ string_dec above e = count_occ string_dec above' e) ->
    cumcount_from above events = cumcount_from above' events.
Proof.
  induction events as [| e events IH]; intros above above' H; simpl; [reflexivity |].
  rewrite (H e). f_equal. apply IH. intros e'. simpl.
  destruct (string_dec e e'); now rewrite H.
Qed.

Lemma cumcount_from_append (xs ys : list string) :
  forall above,
    cumcount_from above (xs ++ ys) =
    cumcount_from above xs ++ cumcount_from (xs ++ above) ys.
Proof.
  induction xs as [| x xs IH]; intros above; simpl; [reflexivity |].
  rewrite IH. f_equal. f_equal. apply cumcount_from_same_counts.
  intros e. rewrite count_occ_app. simpl. rewrite count_occ_app.
  destruct (string_dec x e); lia.
Qed.

(** The rows [explode] makes of one line with its labels. *)
Definition block (batch : string * list (option string)) : list (string * option string) :=
  map (fun l => (fst batch, l)) (snd batch).

Lemma block_events (batch : string * list (option string)) :
  map fst (block batch) = repeat (fst batch) (length (snd batch)).
Proof.
  unfold block. induction (snd batch) as [| l ls IH]; simpl; [reflexivity | now rewrite IH].
Qed.

Lemma cumcount_from_repeat (e : string) (n : nat) :
  forall above,
    cumcount_from above (repeat e n) = seq (count_occ string_dec above e) n.
Proof.
  induction n as [| n IH]; intros above; simpl; [reflexivity |].
  rewrite IH. simpl. destruct (string_dec e e); [reflexivity | congruence].
Qed.

Lemma count_occ_repeat_other (e e' : string) (n : nat) :
  e <> e' -> count_occ string_dec (repeat e n) e' = 0.
Proof.
  intros Hne. induction n as [| n IH]; simpl; [reflexivity |].
  destruct (string_dec e e'); [congruence | exact IH].
Qed.

Lemma combine_append {A B : Type} (l1 l2 : list A) (m1 m2 : list B) :
  length l1 = length m1 ->
  combine (l1 ++ l2) (m1 ++ m2) = combine l1 m1 ++ combine l2 m2.
Proof.
  revert m1. induction l1 as [| a l1 IH]; destruct m1 as [| b m1]; simpl; intros H;
    try discriminate; [reflexivity |].
  rewrite IH by congruence. reflexivity.
Qed.

Lemma explode_blocks (batches : list (string * list (option string))) :
  Forall (fun batch => snd batch <> []) batches ->
  explode batches = flat_map block batches.
Proof.
  induction 1 as [| [e labels] batches Hne _ IH]; [reflexivity |].
  unfold explode in *. cbn [flat_map]. rewrite IH. f_equal.
  simpl in Hne. destruct labels; [congruence | reflexivity].
Qed.

(** Lines of distinct events: the counter of the exploded table starts
    again at 0 in every block. *)
Lemma blocks_indexed (batches : list (string * list (option string))) :
  NoDup (map fst batches) ->
  forall above,
    (forall e, In e (map fst batches) -> count_occ string_dec above e = 0) ->
    combine (cumcount_from above (map fst (flat_map block batches))) (flat_map block batches) =
    flat_map (fun batch => combine (seq 0 (length (snd batch))) (block batch)) batches.
Proof.
  induction batches as [| batch batches IH]; intros Hnd above Habove; [reflexivity |].
  simpl in Hnd. apply NoDup_cons_iff in Hnd. destruct Hnd as [Hfresh Hnd].
  cbn [flat_map]. rewrite map_app, cumcount_from_append, block_events.
  rewrite cumcount_from_repeat, (Habove (fst batch)) by (now left).
  rewrite combine_append.
  - f_equal. apply IH; [exact Hnd |].
    intros e He. rewrite count_occ_app, (Habove e) by (now right).
    rewrite count_occ_repeat_other; [reflexivity |].
    intros Heq. apply Hfresh. now rewrite Heq.
  - rewrite length_seq. unfold block. now rewrite length_map.
Qed.


Lemma block_member (e : string) (labels : list (option string)) :
  forall k i x,
    nth_error labels i = Some x ->
    In (k + i, (e, x)) (combine (seq k (length labels)) (block (e, labels))).
Proof.
  unfold block. cbn [fst snd].
  induction labels as [| l labels IH]; intros k i x Hnth; [now destruct i |].
  destruct i as [| i]; simpl in *.
  - inversion Hnth. left. f_equal. lia.
  - right. replace (k + S i) with (S k + i) by lia. now apply IH.
Qed.

(** The rows of one event, with their counters: the rows of the group,
    numbered from 0. *)
Lemma group_indexed (e : string) (data : list sample) :
  forall above,
    filter (fun l => String.eqb (event_id (snd l)) e)
           (combine (cumcount_from above (map event_id data)) data) =
    combine (seq (count_occ string_dec above e)
                 (length (filter (fun s => String.eqb (event_id s) e) data)))
            (filter (fun s => String.eqb (event_id s) e) data).
Proof.
  induction data as [| s data IH]; intros above; [reflexivity |].
  cbn [map cumcount_from combine filter snd].
  rewrite IH. cbn [count_occ].
  destruct (String.eqb_spec (event_id s) e) as [Heq | Hne].
  - destruct (string_dec (event_id s) e); [| congruence].
    rewrite Heq. reflexivity.
  - destruct (string_dec (event_id s) e); [congruence | reflexivity].
Qed.

Lemma species_of_group (F : nat * sample -> sample) (labels : list (option string)) :
  forall k rows,
    length labels = length rows ->
    (forall i x s, nth_error labels i = Some x -> In s rows ->
                   species (F (k + i, s)) = x) ->
    map (fun l => species (F l)) (combine (seq k (length rows)) rows) = labels.
Proof.
  induction labels as [| x labels IH]; intros k rows Hlen HF;
    destruct rows as [| s rows]; try discriminate; [reflexivity |].
  simpl. f_equal.
  - pose proof (HF 0 x s eq_refl (or_introl eq_refl)) as H0.
    now rewrite Nat.add_0_r in H0.
  - apply IH; [simpl in Hlen; congruence |].
    intros i y s' Hnth Hin. replace (S k + i) with (k + S i) by lia.
    apply HF; [exact Hnth | now right].
Qed.

(** What label uploads for a list of groups: for each group its event and
    one drawn label per row. *)
Lemma label_groups_lines (rnd : random) (q : Q) (groups : list (string * list sample)) :
  forall i batch,
    In batch (map process (label_groups rnd q i groups)) ->
    exists g j, In g groups /\ batch = (fst g, fake_labels rnd q j (snd g)).
Proof.
  induction groups as [| [e rows] groups IH]; intros i batch Hin; [contradiction |].
  simpl in Hin. destruct Hin as [Heq | Hin].
  - exists (e, rows), i. split; [now left | now rewrite <- Heq].
  - destruct (IH _ _ Hin) as [g [j [Hg Hb]]]. exists g, j. split; [now right | exact Hb].
Qed.

Lemma map_process_events (lines : list ground_truth_line) :
  map fst (map process lines) = map gt_eventId lines.
Proof. rewrite map_map. reflexivity. Qed.

Lemma concat_singletons {A B : Type} (f : A -> B) (l : list A) :
  concat (map (fun a => [f a]) l) = map f l.
Proof. induction l as [| a l IH]; simpl; [reflexivity | now rewrite IH]. Qed.

Lemma filter_map_commute {A B : Type} (f : A -> B) (p : B -> bool) (l : list A) :
  filter p (map f l) = map f (filter (fun a => p (f a)) l).
Proof.
  induction l as [| a l IH]; simpl; [reflexivity |].
  destruct (p (f a)); simpl; now rewrite IH.
Qed.

(** A property of every row of every group is a property of every row. *)
Lemma rows_of_groups (P : sample -> Prop) (data : list sample) :
  Forall (fun g => Forall P (snd g)) (groupby data) -> Forall P data.
Proof.
  intros H. rewrite <- (groups_are_the_table data).
  apply Forall_concat. now apply Forall_map.
Qed.


(** Lines of distinct events, each with one label per captured row of its
    event: the join gives the rows of an event the labels of its line, in
    order. *)
Lemma reconcile_reads_lines (data : list sample)
    (batches : list (string * list (option string))) :
  Forall (fun s => species s = None) data ->
  NoDup (map fst batches) ->
  (forall batch, In batch batches ->
     snd batch <> [] /\
     length (snd batch) =
       length (filter (fun s => String.eqb (event_id s) (fst batch)) data)) ->
  forall batch, In batch batches ->
    map species (filter (fun s => String.eqb (event_id s) (fst batch))
                        (reconcile data batches)) = snd batch.
Proof.
  intros Hnone Hnd Hshape [e labels] Hin. cbn [fst snd].
  rewrite (reconcile_lookup data batches Hnone).
  set (right := index_ground_truth (explode batches)).
  set (F := fun l : nat * sample => with_species (lookup l right) (snd l)).
  rewrite filter_map_commute.
  rewrite (filter_ext _ (fun l => String.eqb (event_id (snd l)) e)) by reflexivity.
  unfold index_data, cumcount. rewrite group_indexed. cbn [count_occ].
  rewrite map_map.
  destruct (Hshape _ Hin) as [_ Hlen]. cbn [fst snd] in Hlen.
  apply species_of_group; [exact Hlen |].
  intros i x s Hnth Hs. cbn [Nat.add]. unfold F. cbn [species with_species].
  apply filter_In in Hs. destruct Hs as [_ Hev]. apply String.eqb_eq in Hev.
  apply (lookup_found (i, s) right (i, (e, x))).
  - apply index_ground_truth_keys.
  - unfold right, index_ground_truth, cumcount.
    rewrite explode_blocks.
    + rewrite blocks_indexed; [| exact Hnd | reflexivity].
      apply in_flat_map. exists (e, labels). split; [exact Hin |].
      cbn [snd]. apply (block_member e labels 0 i x Hnth).
    + apply Forall_forall. intros batch Hb. now destruct (Hshape batch Hb).
  - unfold key_of_label, key_of_sample. cbn [fst snd]. now rewrite Hev.
Qed.

Lemma fake_labels_not_null (rnd : random) (q : Q) (rows : list sample) :
  Forall (fun s => prediction s <> None) rows ->
  forall i, Forall (fun l => l <> None) (fake_labels rnd q i rows).
Proof.
  induction 1 as [| r rows Hr _ IH]; intros i; simpl; constructor; [| apply IH].
  unfold get_fake_label. destruct (Qltb (random_random rnd i) q); [exact Hr | discriminate].
Qed.

Lemma map_agree {A B : Type} (f g : A -> B) (l : list A) :
  map f l = map g l -> Forall (fun a => f a = g a) l.
Proof.
  induction l as [| a l IH]; simpl; intros H; constructor; inversion H; auto.
Qed.

Lemma pairs_rebuilt {A B : Type} (f : A -> B) (l : list (A * B)) :
  (forall x, In x l -> f (fst x) = snd x) ->
  map (fun a => (a, f a)) (map fst l) = l.
Proof.
  induction l as [| [a b] l IH]; intros H; [reflexivity |].
  pose proof (H (a, b) (or_introl eq_refl)) as Hab. simpl in Hab.
  simpl. rewrite Hab. f_equal.
  apply IH. intros x Hx. apply H. now right.
Qed.

Lemma ground_truth_of_one_object (b : bucket) (key : string)
    (lines : list ground_truth_line) :
  lines <> [] ->
  ground_truth_uri b = [(key, lines)] ->
  _load_ground_truth_files b = Returned (map process lines).
Proof.
  intros Hne Hgt. unfold _load_ground_truth_files, _load_files. rewrite Hgt.
  cbn [map snd concat]. rewrite app_nil_r. unfold pd_concat.
  destruct lines as [| r rest]; [congruence |].
  cbn [map]. f_equal. cbn [concat app]. f_equal. apply concat_singletons.
Qed.

(** X14. The first labelling is read back. On a bucket without ground-truth
    objects whose captured table is not empty and has its output columns,
    label counts every captured row and uploads one object; the next join
    has the captured rows, and gives the rows of each event, in their
    order, the labels of the uploaded line of that event. So at accuracy
    1.0 (draws in [[0, 1)]) every row's ground truth is its prediction; and
    when every captured row has a prediction, no row is left without ground
    truth and a second label returns 0 and uploads nothing. *)
Theorem first_label_is_read_back :
  forall (b : bucket) (q : Q) (rnd : random) (key : string) (data : list sample),
    ground_truth_uri b = [] ->
    _load_collected_data_files b = Returned data ->
    data <> [] ->
    has_output_columns b = true ->
    exists records joined,
      label b q rnd key =
        (Returned (length data),
         {| data_capture_uri := data_capture_uri b;
            ground_truth_uri := [(key, records)] |}) /\
      _load_collected_data (snd (label b q rnd key)) = Returned joined /\
      map (with_species None) joined = data /\
      map (fun g => (fst g, map species (snd g))) (groupby joined) = map process records /\
      (q = 1%Q -> unit_interval rnd ->
       Forall (fun s => species s = prediction s) joined) /\
      (Forall (fun s => prediction s <> None) data ->
       Forall (fun s => species s <> None) joined /\
       forall q' rnd' key',
         label (snd (label b q rnd key)) q' rnd' key' =
         (Returned 0, snd (label b q rnd key))).
Proof.
  intros b q rnd key data Hgt Hdata Hne Hcols.
  pose proof (captured_unlabeled b data Hdata) as Hnone.
  set (records := label_groups rnd q 0 (groupby data)).
  set (batches := map process records).
  (* what label does *)
  assert (Hunlabeled : _load_unlabeled_data b = Returned data).
  { unfold _load_unlabeled_data, _load_collected_data, _load_ground_truth_files.
    rewrite Hdata, Hgt. cbn [_load_files bind]. f_equal.
    unfold reconcile. destruct data as [| s data]; [reflexivity |].
    apply filter_all. intros x Hx. rewrite Forall_forall in Hnone.
    now rewrite (Hnone x Hx). }
  assert (Hlabel : label b q rnd key =
            (Returned (length data),
             {| data_capture_uri := data_capture_uri b;
                ground_truth_uri := [(key, records)] |})).
  { unfold label. rewrite Hunlabeled, Hcols, Hgt.
    destruct data as [| s data]; [congruence | reflexivity]. }
  (* the lines it uploads *)
  destruct (group_keys data) as [Hasc Hkeys].
  destruct (label_groups_events rnd q (groupby data) 0) as [Hevents Hlengths].
  assert (Hgroups : map fst (groupby data) = fold_right insert_key [] (map event_id data)).
  { unfold groupby. rewrite map_map. apply map_id. }
  assert (Hbk : map fst batches = fold_right insert_key [] (map event_id data)).
  { unfold batches. rewrite map_process_events. fold records in Hevents. congruence. }
  assert (Hrep : forall batch, In batch batches ->
            In (fst batch) (map event_id data) /\
            exists j, snd batch =
              fake_labels rnd q j (filter (fun s => String.eqb (event_id s) (fst batch)) data)).
  { intros batch Hb. apply label_groups_lines in Hb.
    destruct Hb as [g [j [Hg ->]]]. cbn [fst snd].
    unfold groupby in Hg. apply in_map_iff in Hg. destruct Hg as [e [<- He]].
    cbn [fst snd]. split; [now apply Hkeys | now exists j]. }
  assert (Hshape : forall batch, In batch batches ->
            snd batch <> [] /\
            length (snd batch) =
              length (filter (fun s => String.eqb (event_id s) (fst batch)) data)).
  { intros batch Hb. destruct (Hrep batch Hb) as [He [j Hj]].
    rewrite Hj, fake_labels_length. split; [| reflexivity].
    intros Hnil. apply (f_equal (@length _)) in Hnil.
    rewrite fake_labels_length in Hnil.
    apply in_map_iff in He. destruct He as [s [Hs Hsin]].
    assert (Hmem : In s (filter (fun s0 => String.eqb (event_id s0) (fst batch)) data)).
    { apply filter_In. split; [exact Hsin | now apply String.eqb_eq]. }
    destruct (filter (fun s0 => String.eqb (event_id s0) (fst batch)) data);
      [contradiction | discriminate]. }
  assert (Hnd : NoDup (map fst batches)) by (rewrite Hbk; now apply ascending_NoDup).
  (* the next read *)
  assert (Hrecords : records <> []).
  { intros Hnil. apply (f_equal (map gt_eventId)) in Hnil.
    fold records in Hevents. rewrite Hevents, Hgroups in Hnil.
    destruct data as [| s data]; [congruence |].
    assert (Hin : In (event_id s) (fold_right insert_key [] (map event_id (s :: data))))
      by (apply Hkeys; now left).
    rewrite Hnil in Hin. contradiction. }
  assert (Hread : _load_collected_data (snd (label b q rnd key)) =
                  Returned (reconcile data batches)).
  { rewrite Hlabel. cbn [snd]. unfold _load_collected_data.
    unfold _load_collected_data_files in *. cbn [data_capture_uri].
    rewrite Hdata. cbn [bind].
    rewrite (ground_truth_of_one_object
               {| data_capture_uri := data_capture_uri b;
                  ground_truth_uri := [(key, records)] |}
               key records Hrecords eq_refl).
    reflexivity. }
  assert (Hrows : map (with_species None) (reconcile data batches) = data).
  { rewrite (reconcile_lookup data batches Hnone), map_map. cbn [with_species].
    rewrite <- (index_data_rows data) at 2.
    apply map_ext_in. intros l Hl.
    assert (Hs : In (snd l) data) by (rewrite <- (index_data_rows data); now apply in_map).
    rewrite Forall_forall in Hnone. rewrite <- (Hnone _ Hs).
    now destruct (snd l). }
  assert (Hevs : map event_id (reconcile data batches) = map event_id data).
  { rewrite <- Hrows at 2. rewrite map_map. reflexivity. }
  pose proof (reconcile_reads_lines data batches Hnone Hnd Hshape) as Hpoint.
  set (joined := reconcile data batches) in *.
  assert (Hlines : map (fun g => (fst g, map species (snd g))) (groupby joined) = batches).
  { unfold groupby. rewrite map_map. cbn [fst snd]. rewrite Hevs, <- Hbk.
    now apply (pairs_rebuilt
                 (fun e => map species (filter (fun s => String.eqb (event_id s) e) joined))). }
  assert (Hgroup : forall (P : sample -> Prop),
            (forall batch j rows,
                In batch batches ->
                map (with_species None) rows =
                  filter (fun s => String.eqb (event_id s) (fst batch)) data ->
                map species rows =
                  fake_labels rnd q j
                    (filter (fun s => String.eqb (event_id s) (fst batch)) data) ->
                Forall P rows) ->
            Forall P joined).
  { intros P HP. apply rows_of_groups. unfold groupby. apply Forall_map.
    apply Forall_forall. intros e He. cbn [snd].
    rewrite Hevs, <- Hbk in He. apply in_map_iff in He.
    destruct He as [batch [<- Hb]]. destruct (Hrep batch Hb) as [_ [j Hj]].
    apply (HP batch j); [exact Hb | |].
    - rewrite <- Hrows at 1. rewrite filter_map_commute. reflexivity.
    - rewrite (Hpoint batch Hb). exact Hj. }
  exists records, joined.
  split; [exact Hlabel |]. split; [exact Hread |]. split; [exact Hrows |].
  split; [exact Hlines |]. split.
  - intros -> Hu. apply Hgroup. intros batch j rows _ Hsame Hspecies.
    rewrite fake_labels_full_quality, <- Hsame, map_map in Hspecies by exact Hu.
    cbn [prediction with_species] in Hspecies. now apply map_agree.
  - intros Hpred.
    assert (Hall : Forall (fun s => species s <> None) joined).
    { apply Hgroup. intros batch j rows _ _ Hspecies.
      assert (Hlabels : Forall (fun l => l <> None) (map species rows)).
      { rewrite Hspecies. apply fake_labels_not_null.
        apply Forall_forall. intros s Hs. apply filter_In in Hs.
        rewrite Forall_forall in Hpred. now apply Hpred. }
      rewrite Forall_map in Hlabels. exact Hlabels. }
    split; [exact Hall |].
    intros q' rnd' key'. set (b' := snd (label b q rnd key)) in *.
    unfold label, _load_unlabeled_data. rewrite Hread. cbn [bind].
    assert (Hleft : filter (fun s => is_none (species s)) joined = []).
    { clear - Hall. induction Hall as [| s rows Hs _ IH]; simpl; [reflexivity |].
      destruct (species s); [exact IH | congruence]. }
    now rewrite Hleft.
Qed.


(** [small_bucket] before any ground truth was uploaded. *)
Definition unlabeled_bucket : bucket :=
  {| data_capture_uri := data_capture_uri small_bucket; ground_truth_uri := [] |}.

(** A concrete run of [first_label_is_read_back]. *)
Lemma first_label_is_read_back_witness :
  exists data records joined,
    _load_collected_data_files unlabeled_bucket = Returned data /\
    label unlabeled_bucket (1 # 2)%Q coin "ground-truth/2024/05/04/09/3000.jsonl" =
      (Returned (length data),
       {| data_capture_uri := data_capture_uri unlabeled_bucket;
          ground_truth_uri := [("ground-truth/2024/05/04/09/3000.jsonl", records)] |}) /\
    _load_collected_data
      (snd (label unlabeled_bucket (1 # 2)%Q coin "ground-truth/2024/05/04/09/3000.jsonl")) =
      Returned joined /\
    map (with_species None) joined = data /\
    map (fun g => (fst g, map species (snd g))) (groupby joined) = map process records /\
    ((1 # 2)%Q = 1%Q -> unit_interval coin ->
     Forall (fun s => species s = prediction s) joined) /\
    (Forall (fun s => prediction s <> None) data ->
     Forall (fun s => species s <> None) joined /\
     forall q' rnd' key',
       label (snd (label unlabeled_bucket (1 # 2)%Q coin
                     "ground-truth/2024/05/04/09/3000.jsonl")) q' rnd' key' =
       (Returned 0,
        snd (label unlabeled_bucket (1 # 2)%Q coin "ground-truth/2024/05/04/09/3000.jsonl"))).
Proof.
  eexists.
  destruct (first_label_is_read_back unlabeled_bucket (1 # 2)%Q coin
              "ground-truth/2024/05/04/09/3000.jsonl" _ eq_refl eq_refl)
    as [records [joined H]].
  - discriminate.
  - reflexivity.
  - exists records, joined. split; [reflexivity | exact H].
Defined.


(** ** Several lines for one event *)

(** The rows of one event in an indexed ground-truth table: its labels,
    numbered from 0 across all the lines of the event. *)
Lemma labels_indexed (e : string) (table : list (string * option string)) :
  forall above,
    filter (fun g => String.eqb (fst (snd g)) e)
           (combine (cumcount_from above (map fst table)) table) =
    combine (seq (count_occ string_dec above e)
                 (length (filter (fun r => String.eqb (fst r) e) table)))
            (filter (fun r => String.eqb (fst r) e) table).
Proof.
  induction table as [| r table IH]; intros above; [reflexivity |].
  cbn [map cumcount_from combine filter snd].
  rewrite IH. cbn [count_occ].
  destruct (String.eqb_spec (fst r) e) as [Heq | Hne].
  - destruct (string_dec (fst r) e); [| congruence].
    rewrite Heq. reflexivity.
  - destruct (string_dec (fst r) e); [congruence | reflexivity].
Qed.

Lemma numbered_member {A : Type} (l : list A) :
  forall k i x, In (i, x) (combine (seq k (length l)) l) <->
                k <= i /\ nth_error l (i - k) = Some x.
Proof.
  induction l as [| a l IH]; intros k i x; simpl.
  - split; [contradiction |]. intros [_ H]. now destruct (i - k).
  - rewrite IH. split.
    + intros [Heq | [Hle Hnth]].
      * inversion Heq. subst. split; [lia |]. now rewrite Nat.sub_diag.
      * split; [lia |]. replace (i - k) with (S (i - S k)) by lia. exact Hnth.
    + intros [Hle Hnth]. destruct (Nat.eq_dec i k) as [-> | Hne].
      * left. rewrite Nat.sub_diag in Hnth. simpl in Hnth. congruence.
      * right. split; [lia |]. replace (i - k) with (S (i - S k)) in Hnth by lia.
        exact Hnth.
Qed.

(** The label under a key: the label of that number among the labels of the
    event, null when the event has fewer labels. *)
Lemma lookup_positional (table : list (string * option string)) (i : nat) (s : sample) :
  lookup (i, s) (index_ground_truth table) =
  nth i (map snd (filter (fun r => String.eqb (fst r) (event_id s)) table)) None.
Proof.
  set (e := event_id s).
  set (labels := filter (fun r => String.eqb (fst r) e) table).
  assert (Hgroup : forall g, In g (index_ground_truth table) ->
            key_of_label g = key_of_sample (i, s) ->
            nth_error labels i = Some (snd g)).
  { intros g Hg Hkey. unfold key_of_label, key_of_sample in Hkey. cbn [fst snd] in Hkey.
    inversion Hkey as [[Hi He]].
    assert (Hin : In g (filter (fun g0 => String.eqb (fst (snd g0)) e)
                               (index_ground_truth table))).
    { apply filter_In. split; [exact Hg |]. apply String.eqb_eq. exact He. }
    unfold index_ground_truth, cumcount in Hin. rewrite labels_indexed in Hin.
    cbn [count_occ] in Hin. fold labels in Hin.
    destruct g as [j r]. apply numbered_member in Hin. destruct Hin as [_ Hnth].
    cbn [fst snd] in *. rewrite Nat.sub_0_r in Hnth. now subst j. }
  destruct (nth_error labels i) as [r |] eqn:Hnth.
  - assert (Hr : In r labels) by (eapply nth_error_In; eauto).
    apply filter_In in Hr. destruct Hr as [_ Hr]. apply String.eqb_eq in Hr.
    rewrite (lookup_found (i, s) (index_ground_truth table) (i, r)).
    + cbn [snd]. symmetry. apply nth_error_nth.
      now apply map_nth_error.
    + apply index_ground_truth_keys.
    + assert (Hin : In (i, r) (filter (fun g0 => String.eqb (fst (snd g0)) e)
                                      (index_ground_truth table))).
      { unfold index_ground_truth, cumcount. rewrite labels_indexed.
        cbn [count_occ]. fold labels. apply numbered_member.
        split; [lia |]. now rewrite Nat.sub_0_r. }
      apply filter_In in Hin. tauto.
    + unfold key_of_label, key_of_sample. cbn [fst snd]. now rewrite Hr.
  - rewrite lookup_missing.
    + symmetry. apply nth_overflow. rewrite length_map. now apply nth_error_None.
    + intros g Hg Hkey. specialize (Hgroup g Hg Hkey). congruence.
Qed.

(** X15. The join is positional within each event, across all the lines of
    the event: in the joined table the i-th captured row of an event has
    the i-th label the ground-truth objects hold for that event, counted
    through their lines in listing order, and no ground truth when the
    event has i labels or fewer. A later line for an event that already has
    a line does not replace its labels; it continues them. *)
Theorem join_is_positional_within_the_event :
  forall (data : list sample) (batches : list (string * list (option string)))
         (e : string),
    Forall (fun s => species s = None) data ->
    map species (filter (fun s => String.eqb (event_id s) e) (reconcile data batches)) =
    map (fun i => nth i (map snd (filter (fun r => String.eqb (fst r) e) (explode batches)))
                      None)
        (seq 0 (length (filter (fun s => String.eqb (event_id s) e) data))).
Proof.
  intros data batches e Hnone.
  rewrite (reconcile_lookup data batches Hnone).
  rewrite filter_map_commute.
  rewrite (filter_ext _ (fun l => String.eqb (event_id (snd l)) e)) by reflexivity.
  unfold index_data, cumcount. rewrite group_indexed. cbn [count_occ].
  rewrite map_map. cbn [species with_species].
  assert (Hev : Forall (fun s => event_id s = e)
                  (filter (fun s => String.eqb (event_id s) e) data)).
  { apply Forall_forall. intros s Hs. apply filter_In in Hs. now apply String.eqb_eq. }
  revert Hev. generalize (filter (fun s => String.eqb (event_id s) e) data) as rows.
  generalize 0 as k. intros k rows. revert k.
  induction rows as [| s rows IH]; intros k Hev; [reflexivity |].
  inversion Hev as [| ? ? Hs Hrest]; subst.
  cbn [length seq combine map]. f_equal.
  - now rewrite lookup_positional.
  - apply IH. exact Hrest.
Qed.

(** Two capture lines and two ground-truth lines for the same event. *)
Example join_continues_the_labels :
  map species
    (reconcile
       [ captured_row "E1" "2024-05-02T10:00:00Z" "Adelie";
         captured_row "E1" "2024-05-02T10:00:00Z" "Gentoo";
         captured_row "E1" "2024-05-02T10:00:00Z" "Gentoo";
         captured_row "E1" "2024-05-02T10:00:00Z" "Adelie" ]
       [ ("E1", [Some "Adelie"; Some "Chinstrap"]); ("E1", [Some "Gentoo"]) ]) =
  [Some "Adelie"; Some "Chinstrap"; Some "Gentoo"; None].
Proof. reflexivity. Qed.

(** A concrete run of [join_is_positional_within_the_event]. *)
Lemma join_is_positional_within_the_event_witness :
  map species (filter (fun s => String.eqb (event_id s) "E1")
                      (reconcile three_rows two_batches)) =
  map (fun i => nth i (map snd (filter (fun r => String.eqb (fst r) "E1")
                                       (explode two_batches))) None)
      (seq 0 (length (filter (fun s => String.eqb (event_id s) "E1") three_rows))).
Proof.
  apply (join_is_positional_within_the_event three_rows two_batches "E1").
  repeat constructor.
Defined.

End SagemakerMore.

(** * The configuration *)

Module BackendMixinSpec.

Import BackendMixin.

Local Open Scope string_scope.

(** Text without a dollar. *)
Fixpoint plain (s : string) : bool :=
  match s with
  | EmptyString => true
  | String c rest => negb (Ascii.eqb c "$") && plain rest
  end.

(** Text of letters, digits and underscores only. *)
Fixpoint word (s : string) : bool :=
  match s with
  | EmptyString => true
  | String c rest => is_word c && word rest
  end.

(** The text a scan has read and not yet decided about. *)
Definition pending (st : scan) : string :=
  match st with
  | Outside => ""
  | AfterDollar => "$"
  | InName name => "${" ++ name
  end.

Lemma append_empty (s : string) : s ++ "" = s.
Proof. induction s as [| c s IH]; simpl; [reflexivity | now rewrite IH]. Qed.

Lemma append_append (a b c : string) : (a ++ b) ++ c = a ++ (b ++ c).
Proof. induction a as [| x a IH]; simpl; [reflexivity | now rewrite IH]. Qed.

(** When no variable is set a scan gives back what it read. *)
Lemma sub_nothing_set (environ : string -> option string) :
  (forall name, environ name = None) ->
  forall value st, sub environ st value = pending st ++ value.
Proof.
  intros Hnone text. induction text as [| c rest IH]; intros st.
  - destruct st; simpl; [reflexivity | reflexivity | now rewrite append_empty].
  - destruct st as [| | name]; cbn [sub pending].
    + destruct (Ascii.eqb_spec c "$"%char) as [-> | _]; rewrite IH; reflexivity.
    + destruct (Ascii.eqb_spec c "{"%char) as [-> | _]; [rewrite IH; reflexivity |].
      destruct (Ascii.eqb_spec c "$"%char) as [-> | _]; rewrite IH; reflexivity.
    + destruct (is_word c).
      * rewrite IH. cbn [pending]. rewrite !append_append. reflexivity.
      * destruct (Ascii.eqb_spec c "}"%char) as [-> | _].
        -- rewrite IH. destruct name as [| n name]; [reflexivity |].
           unfold replacer. rewrite Hnone. cbn [pending].
           rewrite !append_append. reflexivity.
        -- destruct (Ascii.eqb_spec c "$"%char) as [-> | _]; rewrite IH; cbn [pending];
             rewrite !append_append; reflexivity.
Qed.

(** X16. _get_config returns None for an empty configuration. When none of
    the environment variables is set it returns a non-empty configuration
    as it is: every placeholder, and every text that only looks like one,
    is left untouched. *)
Theorem get_config_leaves_unset_variables :
  forall (backend_config : list (string * json)) (environ : string -> option string),
    _get_config [] environ = None /\
    ((forall name, environ name = None) ->
     backend_config <> [] ->
     _get_config backend_config environ = Some backend_config).
Proof.
  intros backend_config environ. split; [reflexivity |].
  intros Hnone Hne. unfold _get_config.
  destruct backend_config as [| kv rest]; [congruence |]. f_equal.
  rewrite <- (map_id (kv :: rest)) at 2. apply map_ext.
  intros [k v]. destruct v; try reflexivity.
  cbn [fst snd]. now rewrite (sub_nothing_set environ Hnone).
Qed.

(** A concrete run of [get_config_leaves_unset_variables]: no variable is
    set. *)
Lemma get_config_leaves_unset_variables_witness :
  _get_config [ ("database", JStr "file:${DB}?mode=${MODE}");
                ("retries", JNum (3 # 1)%Q) ]
              (fun _ => None) =
  Some [ ("database", JStr "file:${DB}?mode=${MODE}");
         ("retries", JNum (3 # 1)%Q) ].
Proof.
  destruct (get_config_leaves_unset_variables
              [ ("database", JStr "file:${DB}?mode=${MODE}");
                ("retries", JNum (3 # 1)%Q) ]
              (fun _ => None)) as [_ H].
  apply H; [reflexivity | discriminate].
Defined.

Lemma sub_plain_text (environ : string -> option string) (a rest : string) :
  plain a = true ->
  sub environ Outside (a ++ rest) = a ++ sub environ Outside rest.
Proof.
  induction a as [| c a IH]; simpl; intros H; [reflexivity |].
  apply andb_true_iff in H. destruct H as [Hc Ha].
  apply negb_true_iff in Hc. rewrite Hc, IH by exact Ha. reflexivity.
Qed.

Lemma sub_name (environ : string -> option string) (name rest : string) :
  word name = true ->
  forall read,
    read ++ name <> "" ->
    sub environ (InName read) (name ++ "}" ++ rest) =
    replacer environ (read ++ name) ++ sub environ Outside rest.
Proof.
  induction name as [| c name IH]; intros Hword read Hne.
  - rewrite append_empty in *. cbn [append sub].
    change (is_word "}"%char) with false. cbn [Ascii.eqb Bool.eqb]. simpl.
    destruct read; [congruence | reflexivity].
  - cbn [word] in Hword. apply andb_true_iff in Hword. destruct Hword as [Hc Hname].
    change (String c name ++ "}" ++ rest) with (String c (name ++ "}" ++ rest)).
    cbn [sub]. rewrite Hc.
    rewrite (IH Hname (read ++ String c "")).
    + now rewrite append_append.
    + rewrite append_append. exact Hne.
Qed.

Lemma sub_placeholder (environ : string -> option string) (name rest : string) :
  word name = true -> name <> "" ->
  sub environ Outside ("${" ++ name ++ "}" ++ rest) =
  replacer environ name ++ sub environ Outside rest.
Proof.
  intros Hname Hne.
  change ("${" ++ name ++ "}" ++ rest)
    with (String "$" (String "{" (name ++ "}" ++ rest))).
  cbn [sub]. rewrite !Ascii.eqb_refl.
  exact (sub_name environ name rest Hname "" Hne).
Qed.

(** X17. A placeholder is replaced where it stands and the value put in
    its place is not expanded again: in a string value that reads text
    without a dollar, then "${NAME}" with a name of letters, digits and
    underscores, then any rest, the expansion is the text, then the value
    of NAME (or the placeholder itself when NAME is not set), then the
    expansion of the rest. *)
Theorem placeholder_is_replaced_in_place :
  forall (environ : string -> option string) (a name rest : string),
    plain a = true -> word name = true -> name <> "" ->
    sub environ Outside (a ++ "${" ++ name ++ "}" ++ rest) =
    a ++ replacer environ name ++ sub environ Outside rest.
Proof.
  intros environ a name rest Ha Hname Hne.
  rewrite sub_plain_text by exact Ha. f_equal.
  now apply sub_placeholder.
Qed.

(** An environment with HOME and DB set; the value of DB looks like a
    placeholder. *)
Definition two_variables (name : string) : option string :=
  if String.eqb name "HOME" then Some "/root"
  else if String.eqb name "DB" then Some "${HOME}/penguins.db"
  else None.

Example get_config_two_variables :
  _get_config [ ("database", JStr "file:${DB}?mode=${MODE}");
                ("retries", JNum (3 # 1)%Q);
                ("target", JStr "http://127.0.0.1:8080/$invocations") ]
              two_variables =
  Some [ ("database", JStr "file:${HOME}/penguins.db?mode=${MODE}");
         ("retries", JNum (3 # 1)%Q);
         ("target", JStr "http://127.0.0.1:8080/$invocations") ].
Proof. reflexivity. Qed.

(** A concrete run of [placeholder_is_replaced_in_place]. *)
Lemma placeholder_is_replaced_in_place_witness :
  sub two_variables Outside ("file:" ++ "${" ++ "DB" ++ "}" ++ "?mode=${MODE}") =
  "file:" ++ replacer two_variables "DB" ++ sub two_variables Outside "?mode=${MODE}".
Proof.
  exact (placeholder_is_replaced_in_place two_variables "file:" "DB" "?mode=${MODE}"
           eq_refl eq_refl ltac:(discriminate)).
Defined.

End BackendMixinSpec.

(** * S3 locations *)

Module S3UriSpec.

Import S3Uri.

Local Open Scope string_scope.

(** The number of slashes of a text. *)
Fixpoint slashes (s : string) : nat :=
  match s with
  | EmptyString => 0
  | String c rest => (if Ascii.eqb c "/" then 1 else 0) + slashes rest
  end.

Lemma join_cons_char (c : ascii) (part : string) (parts : list string) :
  join (String c part :: parts) = String c (join (part :: parts)).
Proof. unfold join. simpl. now destruct parts. Qed.

Lemma split_not_empty (s : string) : split s <> [].
Proof.
  induction s as [| c s IH]; simpl; [discriminate |].
  destruct (Ascii.eqb c "/"); [discriminate |].
  destruct (split s); discriminate.
Qed.

Lemma split_parts (s : string) :
  join (split s) = s /\
  length (split s) = S (slashes s) /\
  Forall (fun part => slashes part = 0) (split s).
Proof.
  induction s as [| c s [IHjoin [IHlen IHparts]]]; [repeat split; repeat constructor |].
  cbn [split slashes]. destruct (Ascii.eqb_spec c "/"%char) as [-> | Hc].
  - split; [| split].
    + unfold join in *. cbn [String.concat].
      destruct (split s) as [| part parts] eqn:Hs; [now apply split_not_empty in Hs |].
      now rewrite IHjoin.
    + simpl. now rewrite IHlen.
    + constructor; [reflexivity | exact IHparts].
  - destruct (split s) as [| part parts] eqn:Hs; [now apply split_not_empty in Hs |].
    split; [| split].
    + now rewrite join_cons_char, IHjoin.
    + exact IHlen.
    + inversion IHparts as [| ? ? Hpart Hrest]; subst. constructor; [| exact Hrest].
      cbn [slashes]. apply Ascii.eqb_neq in Hc. now rewrite Hc.
Qed.

Lemma split_first_part (a rest : string) :
  slashes a = 0 -> split (a ++ "/" ++ rest) = a :: split rest.
Proof.
  induction a as [| c a IH]; intros Ha; [reflexivity |].
  cbn [slashes] in Ha. destruct (Ascii.eqb c "/") eqn:Hc; [discriminate |].
  change (String c a ++ "/" ++ rest) with (String c (a ++ "/" ++ rest)).
  cbn [split]. rewrite Hc, IH by exact Ha. reflexivity.
Qed.

Lemma split_one_part (a : string) : slashes a = 0 -> split a = [a].
Proof.
  induction a as [| c a IH]; intros Ha; [reflexivity |].
  cbn [slashes] in Ha. destruct (Ascii.eqb c "/") eqn:Hc; [discriminate |].
  cbn [split]. rewrite Hc, IH by exact Ha. reflexivity.
Qed.

Lemma split_s3 (bucket path : string) :
  slashes bucket = 0 ->
  split ("s3://" ++ bucket ++ "/" ++ path) = "s3:" :: "" :: bucket :: split path.
Proof.
  intros Hb.
  change ("s3://" ++ bucket ++ "/" ++ path)
    with ("s3:" ++ "/" ++ ("" ++ "/" ++ (bucket ++ "/" ++ path))).
  rewrite !split_first_part by (exact Hb || reflexivity). reflexivity.
Qed.

(** X18. The bucket and the prefix _load_files and label read off a
    location: the subscript [2] raises IndexError exactly when the location
    has fewer than two slashes; on "s3://" + bucket + "/" + path, the
    bucket holding no slash, they are the bucket and the path, and on
    "s3://" + bucket the bucket and the empty prefix. *)
Theorem bucket_and_prefix_of_a_location :
  (forall uri, bucket_and_prefix uri = None <-> slashes uri < 2) /\
  (forall bucket path,
      slashes bucket = 0 ->
      bucket_and_prefix ("s3://" ++ bucket ++ "/" ++ path) = Some (bucket, path) /\
      bucket_and_prefix ("s3://" ++ bucket) = Some (bucket, "")).
Proof.
  split.
  - intros uri. unfold bucket_and_prefix.
    destruct (split_parts uri) as [_ [Hlen _]].
    destruct (nth_error (split uri) 2) as [bucket |] eqn:Hnth.
    + split; [discriminate |]. intros Hlt.
      assert (Hsome : nth_error (split uri) 2 <> None) by congruence.
      apply nth_error_Some in Hsome. lia.
    + split; [| reflexivity]. intros _. apply nth_error_None in Hnth. lia.
  - intros bucket path Hb. unfold bucket_and_prefix. split.
    + rewrite split_s3 by exact Hb. cbn [nth_error skipn].
      now destruct (split_parts path) as [-> _].
    + change ("s3://" ++ bucket) with ("s3:" ++ "/" ++ ("" ++ "/" ++ bucket)).
      rewrite !split_first_part by reflexivity.
      rewrite split_one_part by exact Hb. reflexivity.
Qed.

(** A concrete run of [bucket_and_prefix_of_a_location]. *)
Lemma bucket_and_prefix_of_a_location_witness :
  bucket_and_prefix ("s3://" ++ "penguins" ++ "/" ++ "datastore/ground-truth/") =
    Some ("penguins", "datastore/ground-truth/") /\
  bucket_and_prefix ("s3://" ++ "penguins") = Some ("penguins", "").
Proof.
  destruct bucket_and_prefix_of_a_location as [_ H].
  apply (H "penguins" "datastore/ground-truth/"). reflexivity.
Defined.

Lemma rstrip_rstrip (s : string) : rstrip (rstrip s) = rstrip s.
Proof.
  induction s as [| c s IH]; [reflexivity |].
  cbn [rstrip]. destruct (rstrip s) as [| k kept] eqn:Hs.
  - destruct (Ascii.eqb c "/") eqn:Hc; [reflexivity |].
    cbn [rstrip]. now rewrite Hc.
  - cbn [rstrip]. cbn [rstrip] in IH. now rewrite IH.
Qed.

Lemma rstrip_slash (s : string) : rstrip (s ++ "/") = rstrip s.
Proof.
  induction s as [| c s IH]; [reflexivity |].
  change (String c s ++ "/") with (String c (s ++ "/")).
  cbn [rstrip]. now rewrite IH.
Qed.

Lemma rstrip_after (a b : string) :
  rstrip b <> "" -> rstrip (a ++ b) = a ++ rstrip b.
Proof.
  intros Hb. induction a as [| c a IH]; [reflexivity |].
  change (String c a ++ b) with (String c (a ++ b)).
  cbn [rstrip]. rewrite IH.
  change (String c a ++ rstrip b) with (String c (a ++ rstrip b)).
  destruct (a ++ rstrip b) as [| k kept] eqn:Hab; [| reflexivity].
  exfalso. destruct a; simpl in Hab; [congruence | discriminate].
Qed.

(** X19. Sagemaker.__init__ cannot do without a ground-truth location (the
    rstrip of None raises), and gives any location exactly one final slash:
    the result is the location without its final slashes, plus one;
    normalising it again changes nothing. For "s3://" + bucket + "/" + path,
    the bucket without slash and the path not made of slashes only, label
    then uploads to that bucket under the path without its final slashes,
    a slash, the time stamp and ".jsonl". *)
Theorem ground_truth_location_ends_with_one_slash :
  init_ground_truth_uri None = None /\
  (forall uri,
      init_ground_truth_uri (Some uri) = Some (rstrip uri ++ "/") /\
      rstrip (rstrip uri ++ "/") = rstrip uri /\
      init_ground_truth_uri (Some (rstrip uri ++ "/")) = Some (rstrip uri ++ "/")) /\
  (forall bucket path stamp,
      slashes bucket = 0 -> rstrip path <> "" ->
      exists location,
        init_ground_truth_uri (Some ("s3://" ++ bucket ++ "/" ++ path)) = Some location /\
        bucket_and_prefix location = Some (bucket, rstrip path ++ "/") /\
        upload_key location stamp = rstrip path ++ "/" ++ stamp ++ ".jsonl").
Proof.
  split; [reflexivity |]. split.
  - intros uri. split; [reflexivity |].
    assert (H : rstrip (rstrip uri ++ "/") = rstrip uri)
      by (now rewrite rstrip_slash, rstrip_rstrip).
    split; [exact H |]. unfold init_ground_truth_uri. now rewrite H.
  - intros bucket path stamp Hb Hpath.
    exists ("s3://" ++ bucket ++ "/" ++ (rstrip path ++ "/")).
    assert (Hsplit : split ("s3://" ++ bucket ++ "/" ++ (rstrip path ++ "/")) =
                     "s3:" :: "" :: bucket :: split (rstrip path ++ "/"))
      by (now apply split_s3).
    split; [| split].
    + unfold init_ground_truth_uri. f_equal.
      pose proof (rstrip_after "/" path Hpath) as H1.
      assert (H1ne : rstrip ("/" ++ path) <> "") by (rewrite H1; discriminate).
      pose proof (rstrip_after bucket ("/" ++ path) H1ne) as H2.
      assert (H2ne : rstrip (bucket ++ "/" ++ path) <> "").
      { rewrite H2, H1. destruct bucket; discriminate. }
      rewrite (rstrip_after "s3://" (bucket ++ "/" ++ path) H2ne), H2, H1.
      now rewrite !BackendMixinSpec.append_append.
    + unfold bucket_and_prefix. rewrite Hsplit. cbn [nth_error skipn].
      now destruct (split_parts (rstrip path ++ "/")) as [-> _].
    + unfold upload_key. rewrite Hsplit. cbn [skipn].
      destruct (split_parts (rstrip path ++ "/")) as [-> _].
      now rewrite !BackendMixinSpec.append_append.
Qed.

(** A concrete run of [ground_truth_location_ends_with_one_slash]: a
    location configured with two final slashes. *)
Lemma ground_truth_location_ends_with_one_slash_witness :
  exists location,
    init_ground_truth_uri (Some ("s3://" ++ "penguins" ++ "/" ++ "ground-truth//")) =
      Some location /\
    bucket_and_prefix location = Some ("penguins", rstrip "ground-truth//" ++ "/") /\
    upload_key location "2024/05/04/09/3000" =
      rstrip "ground-truth//" ++ "/" ++ "2024/05/04/09/3000" ++ ".jsonl".
Proof.
  destruct ground_truth_location_ends_with_one_slash as [_ [_ H]].
  apply (H "penguins" "ground-truth//" "2024/05/04/09/3000");
    [reflexivity | discriminate].
Defined.

End S3UriSpec.
